(** * mcp-server-gsc: the analytics enhancement and quick-wins engine

    A shallow embedding of [src/index.ts] (the query builder) and
    [src/search-console.ts] (the service class: permission fallback,
    enhanced search analytics, quick-wins detection), followed by the
    properties the specification states about them.

    JavaScript numbers are IEEE 754 binary64 values; they are modelled by
    Rocq's primitive floats, whose operations are the same binary64
    operations, so NaN, the infinities, the signed zeros and rounding
    behave as in the program.  An optional field is an [option]; a method
    that may throw returns a [result]; asynchronous methods of the service
    pass a state that holds the service object, the outside world and the
    trace of what the service sent to it.  Strings are byte strings, read
    as UTF-8.  Where the language leaves the outcome of an operation to
    the implementation (the order a sort with an inconsistent comparator
    gives), that outcome is a parameter.

    Layout: the language primitives ([JS]), the sources ([Schemas],
    [SearchConsole], [Index]), the vocabulary of the properties ([Exact],
    [Spec]), facts about binary64 arithmetic, sorting and the structure
    of a detection run, then the properties of the query builder, of the
    service and of detection. *)

From Stdlib Require Import ZArith Bool List Lia Ascii String.
From Stdlib Require Import Permutation Sorted.
From Stdlib Require Import Floats.
From Stdlib Require QArith Qround.
Import ListNotations.

Set Warnings "-inexact-float".

(* ================================================================== *)
(** * JavaScript numbers *)
(* ================================================================== *)

Module JS.

Open Scope float_scope.

(** The relational operators of the language on numbers.  [a >= b] is
    IEEE [b <= a]; every comparison with NaN is false. *)
Definition num_ge (a b : float) : bool := b <=? a.
Definition num_le (a b : float) : bool := a <=? b.
Definition num_gt (a b : float) : bool := b <? a.
Definition num_lt (a b : float) : bool := a <? b.

(** [x ?? d] on an optional numeric field. *)
Definition nullish (x : option float) (d : float) : float :=
  match x with Some v => v | None => d end.

(** [ToNumber]: [undefined] becomes NaN in arithmetic and comparisons. *)
Definition ToNumber (x : option float) : float :=
  match x with Some v => v | None => nan end.

(** Truthiness of a number: [0], [-0] and NaN are falsy. *)
Definition truthy_number (x : float) : bool :=
  negb (is_zero x || is_nan x).

(** [Math.round]: the integer closest to [x], ties towards +infinity;
    NaN, the infinities and the zeros are returned unchanged, and a
    negative argument that rounds to zero gives [-0].  For a finite
    [x = (-1)^s * m * 2^e] with [e < 0] the result is
    [floor (x + 1/2) = floor ((2 * (+-m) + 2^(-e)) / 2^(1 - e))]. *)
Definition Math_round (x : float) : float :=
  match Prim2SF x with
  | S754_finite s m e =>
      if (0 <=? e)%Z then x
      else
        let n := ((2 * cond_Zopp s (Zpos m) + 2 ^ (- e)) / 2 ^ (1 - e))%Z in
        if (n =? 0)%Z then (if s then neg_zero else zero)
        else SF2Prim (binary_normalize prec emax n 0 false)
  | _ => x
  end.

(** [Math.max] on two arguments: NaN if either is NaN, and [+0] is
    larger than [-0]. *)
Definition Math_max (a b : float) : float :=
  if is_nan a || is_nan b then nan
  else if a <? b then b
  else if b <? a then a
  else if get_sign a then b else a.

(** [Number(x.toFixed(digits))].  [toFixed] prints NaN and the infinities
    by name and a value of magnitude at least 1e21 in shortest round-trip
    form, so [Number] gives [x] back.  Otherwise it prints the integer [n]
    closest to [|x| * 10^digits] (the larger one on a tie) with the
    decimal point inserted and the sign of [x] in front when [x < 0];
    [Number] reads that as the binary64 value closest to [n / 10^digits],
    computed here by a correctly rounded division of the two integers. *)
Definition toFixed_Number (digits : Z) (x : float) : float :=
  match Prim2SF x with
  | S754_finite s m e =>
      if 1e21 <=? abs x then x
      else
        let p := (10 ^ digits)%Z in
        let n := if (0 <=? e)%Z then (Zpos m * 2 ^ e * p)%Z
                 else ((2 * Zpos m * p + 2 ^ (- e)) / 2 ^ (1 - e))%Z in
        match n with
        | Zpos n' =>
            SF2Prim (SFdiv prec emax (S754_finite s n' 0)
                                     (S754_finite false (Z.to_pos p) 0))
        | _ => if s then neg_zero else zero
        end
  | S754_zero _ => zero
  | _ => x
  end.

(** Thrown values.  [Error_ msg] is an instance of [Error] (or of a
    subclass such as [TypeError]) with that message; [NotError str] is any
    other thrown value, [str] being what [String(err)] gives for it. *)
Inductive exn : Type :=
  | Error_ (message : string)
  | NotError (str : string).

Inductive result (A : Type) : Type :=
  | Ok (v : A)
  | Throw (e : exn).
Arguments Ok {A} v.
Arguments Throw {A} e.

Definition bindR {A B} (r : result A) (k : A -> result B) : result B :=
  match r with Ok v => k v | Throw e => Throw e end.

(** [Array.prototype.map] with a callback that may throw: elements are
    visited left to right and the first exception aborts the call. *)
Fixpoint Array_map {A B} (f : A -> result B) (l : list A) : result (list B) :=
  match l with
  | [] => Ok []
  | x :: l' =>
      bindR (f x) (fun y => bindR (Array_map f l') (fun ys => Ok (y :: ys)))
  end.

(** [Array.prototype.sort (comparefn)].

    The sort sees the comparator through [SortCompare], in which a NaN
    result counts as [+0].  Writing [a <C b], [a =C b] and [a >C b] for
    [SortCompare a b] being below, equal to and above zero, the comparator
    is consistent for the elements of the array when, for all elements
    [a], [b], [c]: [a =C a]; [a =C b] implies [b =C a]; and each of [=C],
    [<C] and [>C] is transitive.

    For a consistent comparator the language fixes the outcome: the
    elements in ascending order of the comparator, elements that compare
    equal staying in their original order (the sort is stable).
    [sorted_order] computes that order by insertion; [comparefn a b > 0]
    places [a] after [b].

    For an inconsistent comparator the order is implementation-defined;
    the array still holds the same elements.  That order is a parameter
    of the model, the [Engine]. *)
Class Engine : Type := {
  implementation_defined_order :
    forall A : Type, (A -> A -> float) -> list A -> list A;
  elements_kept :
    forall (A : Type) (comparefn : A -> A -> float) (l : list A),
      Permutation l (implementation_defined_order A comparefn l)
}.

Section Sort.
Context {engine : Engine}.
Context {A : Type}.
Variable comparefn : A -> A -> float.

Definition SortCompare (x y : A) : float :=
  let v := comparefn x y in
  if is_nan v then 0 else v.

Definition lt_C (a b : A) : bool := num_lt (SortCompare a b) 0.
Definition eq_C (a b : A) : bool := SortCompare a b =? 0.
Definition gt_C (a b : A) : bool := num_gt (SortCompare a b) 0.

Definition consistent_at (a b c : A) : bool :=
  eq_C a a &&
  implb (eq_C a b) (eq_C b a) &&
  implb (eq_C a b && eq_C b c) (eq_C a c) &&
  implb (lt_C a b && lt_C b c) (lt_C a c) &&
  implb (gt_C a b && gt_C b c) (gt_C a c).

Definition consistent (l : list A) : bool :=
  List.forallb (fun a =>
    List.forallb (fun b =>
      List.forallb (fun c => consistent_at a b c) l) l) l.

Definition after (a b : A) : bool := num_gt (comparefn a b) 0.

Fixpoint insert (x : A) (l : list A) : list A :=
  match l with
  | [] => [x]
  | y :: l' => if after x y then y :: insert x l' else x :: y :: l'
  end.

Fixpoint sorted_order (l : list A) : list A :=
  match l with
  | [] => []
  | x :: l' => insert x (sorted_order l')
  end.

Definition Array_sort (l : list A) : list A :=
  if consistent l then sorted_order l
  else implementation_defined_order A comparefn l.
End Sort.

(** ** Strings *)

Open Scope string_scope.

Definition toLowerCase_ascii (c : ascii) : ascii :=
  let n := nat_of_ascii c in
  if (65 <=? n)%nat && (n <=? 90)%nat then ascii_of_nat (n + 32) else c.

(** [String.prototype.toLowerCase], on the ASCII letters. *)
Fixpoint toLowerCase (s : string) : string :=
  match s with
  | EmptyString => EmptyString
  | String c s' => String (toLowerCase_ascii c) (toLowerCase s')
  end.

Definition startsWith (s pre : string) : bool := String.prefix pre s.

(** [s.includes(sub)] *)
Fixpoint includes (s sub : string) : bool :=
  String.prefix sub s ||
  match s with
  | EmptyString => false
  | String _ s' => includes s' sub
  end.

(** Truthiness of an optional string: [undefined] and [""] are falsy. *)
Definition truthy (x : option string) : bool :=
  match x with
  | Some EmptyString | None => false
  | Some _ => true
  end.

(** [l.join(sep)] *)
Definition join (sep : string) (l : list string) : string := String.concat sep l.

(** [s.split(sep)] for a one-character separator. *)
Fixpoint split_char (sep : ascii) (s : string) : list string :=
  match s with
  | EmptyString => [EmptyString]
  | String c s' =>
      if Ascii.eqb c sep then EmptyString :: split_char sep s'
      else match split_char sep s' with
           | [] => [String c EmptyString]
           | w :: ws => String c w :: ws
           end
  end.

(** White space and line terminators, as [trim] strips them, in their
    UTF-8 encodings.  One byte: U+0009 to U+000D and U+0020.  Two bytes:
    U+00A0.  Three bytes: U+1680, U+2000 to U+200A, U+2028, U+2029,
    U+202F, U+205F, U+3000 and U+FEFF. *)
Definition is_space (c : ascii) : bool :=
  let n := nat_of_ascii c in
  (n =? 32)%nat || ((9 <=? n)%nat && (n <=? 13)%nat).

Definition is_space2 (c1 c2 : ascii) : bool :=
  (nat_of_ascii c1 =? 194)%nat && (nat_of_ascii c2 =? 160)%nat.

Definition is_space3 (c1 c2 c3 : ascii) : bool :=
  let n1 := nat_of_ascii c1 in
  let n2 := nat_of_ascii c2 in
  let n3 := nat_of_ascii c3 in
  ((n1 =? 225) && (n2 =? 154) && (n3 =? 128))%nat ||
  ((n1 =? 226) && (n2 =? 128) &&
   (((128 <=? n3) && (n3 <=? 138)) || (n3 =? 168) || (n3 =? 169) || (n3 =? 175)))%nat ||
  ((n1 =? 226) && (n2 =? 129) && (n3 =? 159))%nat ||
  ((n1 =? 227) && (n2 =? 128) && (n3 =? 128))%nat ||
  ((n1 =? 239) && (n2 =? 187) && (n3 =? 191))%nat.

(** The string without the white space it starts with.  [backwards]
    tells that the string is read from its end, so that the bytes of a
    character arrive last byte first. *)
Fixpoint strip_space (backwards : bool) (s : string) : string :=
  match s with
  | EmptyString => EmptyString
  | String c1 s1 =>
      if is_space c1 then strip_space backwards s1
      else
        match s1 with
        | EmptyString => s
        | String c2 s2 =>
            if (if backwards then is_space2 c2 c1 else is_space2 c1 c2)
            then strip_space backwards s2
            else
              match s2 with
              | EmptyString => s
              | String c3 s3 =>
                  if (if backwards then is_space3 c3 c2 c1 else is_space3 c1 c2 c3)
                  then strip_space backwards s3
                  else s
              end
        end
  end.

Definition trimStart (s : string) : string := strip_space false s.

Fixpoint rev_string (s acc : string) : string :=
  match s with
  | EmptyString => acc
  | String c s' => rev_string s' (String c acc)
  end.

(** [s.trim()] *)
Definition trim (s : string) : string :=
  rev_string (strip_space true (rev_string (trimStart s) "")) "".

End JS.

(* ================================================================== *)
(** * src/schemas.ts *)
(* ================================================================== *)

Module Schemas.

Open Scope string_scope.

(** [z.infer<typeof SearchAnalyticsSchema>]: the parsed arguments of the
    search-analytics tools.  Fields with a schema default are always
    present after parsing; the others are optional. *)
Module SearchAnalytics.
Record t : Type := {
  siteUrl : string;
  startDate : string;
  endDate : string;
  dimensions : option string;
  type : option string;
  aggregationType : option string;
  rowLimit : float;
  startRow : float;
  dataState : string;
  pageFilter : option string;
  queryFilter : option string;
  countryFilter : option string;
  deviceFilter : option string;
  filterOperator : string
}.
End SearchAnalytics.
Definition SearchAnalytics := SearchAnalytics.t.

(** [Partial<QuickWinsThresholds>]: every threshold may be left out. *)
Record QuickWinsThresholds : Type := {
  minImpressions : option float;
  maxCtr : option float;
  positionRangeMin : option float;
  positionRangeMax : option float;
  targetCtr : option float;
  estimatedClickValue : option float;
  conversionRate : option float
}.

End Schemas.

(* ================================================================== *)
(** * src/search-console.ts *)
(* ================================================================== *)

Module SearchConsole.

Import JS Schemas.
Open Scope string_scope.
Open Scope float_scope.

(** ** Types *)

Record SearchAnalyticsRow : Type := {
  keys : option (list string);
  clicks : option float;
  impressions : option float;
  ctr : option float;
  position : option float
}.

Inductive Opportunity : Type := High | Medium | Low.

(** The declared type of [impressions] is [number]; it is copied from the
    row without a default, so at run time it is [undefined] when the row
    has none. *)
Module QuickWin.
Record t : Type := {
  query : string;
  page : string;
  currentPosition : float;
  impressions : option float;
  currentClicks : float;
  currentCtr : float;
  potentialClicks : float;
  additionalClicks : float;
  estimatedValue : float;
  opportunity : Opportunity;
  recommendation : string
}.
End QuickWin.
Definition QuickWin := QuickWin.t.

Module Metadata.
Record t : Type := {
  regexFilterApplied : bool;
  quickWinsEnabled : bool;
  rowLimit : float;
  totalRows : nat
}.
End Metadata.

Module EnhancedSearchAnalyticsResponse.
Record t : Type := {
  rows : option (list SearchAnalyticsRow);
  responseAggregationType : option string;
  quickWins : option (list QuickWin);
  metadata : option Metadata.t
}.
End EnhancedSearchAnalyticsResponse.
Definition EnhancedSearchAnalyticsResponse := EnhancedSearchAnalyticsResponse.t.

Record EnhancedSearchAnalyticsOptions : Type := {
  regexFilter : option string;
  enableQuickWins : option bool;
  quickWinsThresholds : option QuickWinsThresholds
}.

(** The request body of the upstream query endpoint. *)
Record ApiDimensionFilter : Type := {
  dimension : string;
  operator : string;
  expression : string
}.

Record ApiDimensionFilterGroup : Type := {
  groupType : string;
  filters : list ApiDimensionFilter
}.

Module Request.
Record t : Type := {
  startDate : option string;
  endDate : option string;
  dimensions : option (list string);
  searchType : option string;
  aggregationType : option string;
  rowLimit : option float;
  startRow : option float;
  dataState : option string;
  dimensionFilterGroups : option (list ApiDimensionFilterGroup)
}.
End Request.
Definition SearchAnalyticsQueryRequest := option Request.t.

(** The [data] of the upstream query response. *)
Module Response.
Record t : Type := {
  rows : option (list SearchAnalyticsRow);
  responseAggregationType : option string
}.
End Response.

(** ** Quick-wins detection *)

(** The client handle of the authentication library, known only by its
    identity. *)
Inductive AuthClient : Type := auth_client (id : nat).

(** The fields of the service object. *)
Record SearchConsoleService : Type := {
  cachedAuthClient : option AuthClient;
  hasWriteAccess : bool
}.

(** [generateRecommendation]; [position] and [impressions] arrive as the
    row has them. *)
Definition generateRecommendation (this : SearchConsoleService)
    (position : option float) (ctr : float) (impressions : option float) : string :=
  let recommendations : list string := [] in
  let recommendations :=
    if num_ge (ToNumber position) 4 && num_le (ToNumber position) 6 then
      (recommendations ++ ["Improve content depth and relevance to reach top 3"%string])%list
    else if num_gt (ToNumber position) 6 && num_le (ToNumber position) 10 then
      (recommendations ++ ["Focus on on-page SEO and internal linking"%string])%list
    else recommendations in
  let recommendations :=
    if num_lt ctr 1 then
      (recommendations ++ ["Optimize title tag and meta description for higher CTR"%string])%list
    else recommendations in
  let recommendations :=
    if num_ge (ToNumber impressions) 1000 then
      (recommendations ++ ["High-volume keyword - prioritize optimization"%string])%list
    else recommendations in
  if (0 <? List.length recommendations)%nat
  then join ". " recommendations
  else "Review content for optimization opportunities"%string.

(** The destructuring of [thresholds] with its defaults. *)
Record Thresholds : Type := {
  th_minImpressions : float;
  th_maxCtr : float;
  th_positionRangeMin : float;
  th_positionRangeMax : float;
  th_targetCtr : float;
  th_estimatedClickValue : float;
  th_conversionRate : float
}.

Definition no_thresholds : QuickWinsThresholds :=
  {| minImpressions := None; maxCtr := None; positionRangeMin := None;
     positionRangeMax := None; targetCtr := None;
     estimatedClickValue := None; conversionRate := None |}.

Definition destructure (thresholds : option QuickWinsThresholds) : Thresholds :=
  let thresholds := match thresholds with Some t => t | None => no_thresholds end in
  {| th_minImpressions := nullish (minImpressions thresholds) 50;
     th_maxCtr := nullish (maxCtr thresholds) 2.0;
     th_positionRangeMin := nullish (positionRangeMin thresholds) 4;
     th_positionRangeMax := nullish (positionRangeMax thresholds) 10;
     th_targetCtr := nullish (targetCtr thresholds) 5.0;
     th_estimatedClickValue := nullish (estimatedClickValue thresholds) 1.0;
     th_conversionRate := nullish (conversionRate thresholds) 0.03 |}.

(** The callback of [.filter]. *)
Definition filter_row (th : Thresholds) (row : SearchAnalyticsRow) : bool :=
  let impressions := nullish (impressions row) 0 in
  let ctr := nullish (ctr row) 0 * 100 in
  let position := nullish (position row) 0 in
  num_ge impressions (th_minImpressions th) &&
  num_le ctr (th_maxCtr th) &&
  num_ge position (th_positionRangeMin th) &&
  num_le position (th_positionRangeMax th).

(** The opportunity level, from the [if] chain of the [.map] callback. *)
Definition classify (additionalClicks : float) : Opportunity :=
  if num_ge additionalClicks 100 then High
  else if num_ge additionalClicks 25 then Medium
  else Low.

(** [keys?.[i] ?? 'N/A'] *)
Definition key_or_NA (keys : option (list string)) (i : nat) : string :=
  match keys with
  | Some ks => match nth_error ks i with Some k => k | None => "N/A"%string end
  | None => "N/A"%string
  end.

(** The callback of [.map].  It reads [impressions], [ctr] and [position]
    without defaults; [position.toFixed] raises a [TypeError] when the row
    has no position. *)
Definition map_row (this : SearchConsoleService)
    (th : Thresholds) (row : SearchAnalyticsRow) : result QuickWin :=
  let impressions := impressions row in
  let currentClicks := nullish (clicks row) 0 in
  let currentCtr := ToNumber (ctr row) * 100 in
  let position := position row in
  let potentialClicks := Math_round ((ToNumber impressions * th_targetCtr th) / 100) in
  let additionalClicks := Math_max 0 (potentialClicks - currentClicks) in
  let estimatedValue :=
    toFixed_Number 2
      (additionalClicks * th_estimatedClickValue th * (1 + th_conversionRate th)) in
  let opportunity := classify additionalClicks in
  let recommendation := generateRecommendation this position currentCtr impressions in
  match position with
  | None =>
      Throw (Error_ "Cannot read properties of undefined (reading 'toFixed')")
  | Some position =>
      Ok {| QuickWin.query := key_or_NA (keys row) 0;
            QuickWin.page := key_or_NA (keys row) 1;
            QuickWin.currentPosition := toFixed_Number 1 position;
            QuickWin.impressions := impressions;
            QuickWin.currentClicks := currentClicks;
            QuickWin.currentCtr := toFixed_Number 2 currentCtr;
            QuickWin.potentialClicks := potentialClicks;
            QuickWin.additionalClicks := additionalClicks;
            QuickWin.estimatedValue := estimatedValue;
            QuickWin.opportunity := opportunity;
            QuickWin.recommendation := recommendation |}
  end.

(** The comparator of [.sort]. *)
Definition by_additionalClicks (a b : QuickWin) : float :=
  QuickWin.additionalClicks b - QuickWin.additionalClicks a.

Definition detectQuickWins {engine : Engine} (this : SearchConsoleService)
    (rows : list SearchAnalyticsRow) (thresholds : option QuickWinsThresholds)
    : result (list QuickWin) :=
  let th := destructure thresholds in
  bindR (Array_map (map_row this th) (List.filter (filter_row th) rows))
        (fun mapped => Ok (Array_sort by_additionalClicks mapped)).

(** ** The service and its collaborators *)

(** What the service does to the outside: messages on the error console
    and queries sent to the upstream endpoint.  [Called] marks the
    invocation of a caller-supplied operation. *)
Inductive Event : Type :=
  | ConsoleError (msg : string)
  | Called (label : string)
  | Query (siteUrl : string) (requestBody : SearchAnalyticsQueryRequest).

Section Service.

Context {engine : Engine}.

(** The state of everything outside the process (the upstream service and
    the authentication back end), and the collaborators acting on it.
    [URL_hostname url] is the [hostname] of [new URL(url)], or [None] when
    the constructor throws. *)
Variable World : Type.
Variable auth_getClient : World -> result AuthClient * World.
Variable searchanalytics_query :
  AuthClient -> string -> SearchAnalyticsQueryRequest -> World ->
  result Response.t * World.
Variable URL_hostname : string -> option string.

Record State : Type := {
  this : SearchConsoleService;
  world : World;
  trace : list Event
}.

(** Asynchronous methods: state passing, with exceptions. *)
Definition M (A : Type) : Type := State -> result A * State.

Definition ret {A} (v : A) : M A := fun s => (Ok v, s).
Definition throw {A} (e : exn) : M A := fun s => (Throw e, s).
Definition bind {A B} (m : M A) (k : A -> M B) : M B :=
  fun s => match m s with
           | (Ok v, s') => k v s'
           | (Throw e, s') => (Throw e, s')
           end.
Definition emit (ev : Event) : M unit :=
  fun s => (Ok tt, {| this := this s; world := world s;
                      trace := (trace s ++ [ev])%list |}).
Definition console_error (msg : string) : M unit := emit (ConsoleError msg).

(** An operation on the outside world, as a method the service can
    await; its invocation is recorded under [label]. *)
Definition external {A} (label : string) (f : World -> result A * World) : M A :=
  fun s => let (r, w) := f (world s) in
           (r, {| this := this s; world := w;
                  trace := (trace s ++ [Called label])%list |}).

Definition getAuthClient : M AuthClient :=
  fun s =>
    match cachedAuthClient (this s) with
    | Some client => (Ok client, s)
    | None =>
        match auth_getClient (world s) with
        | (Ok client, w) =>
            (Ok client,
             {| this := {| cachedAuthClient := Some client;
                           hasWriteAccess := hasWriteAccess (this s) |};
                world := w; trace := trace s |})
        | (Throw e, w) =>
            (Throw e, {| this := this s; world := w; trace := trace s |})
        end
    end.

(** The webmasters API client is the authenticated handle. *)
Definition getWebmasters : M AuthClient :=
  bind getAuthClient (fun authClient => ret authClient).

(** [url.replace(/^https?:\/\//, '')] *)
Definition strip_scheme (url : string) : string :=
  if startsWith url "https://" then String.substring 8 (String.length url - 8) url
  else if startsWith url "http://" then String.substring 7 (String.length url - 7) url
  else url.

Definition normalizeUrl (url : string) : string :=
  if startsWith url "sc-domain:" then url
  else match URL_hostname url with
       | Some hostname => ("sc-domain:" ++ hostname)%string
       | None =>
           ("sc-domain:" ++ List.hd ""%string (split_char "/" (strip_scheme url)))%string
       end.

(** [err instanceof Error ? err.message : ...] *)
Definition errorMessage_of (err : exn) : string :=
  match err with Error_ message => toLowerCase message | NotError _ => ""%string end.

Definition message_or_String (err : exn) : string :=
  match err with Error_ message => message | NotError str => str end.

Definition withPermissionFallback {T}
    (operation fallbackOperation : M T) (context : string) : M T :=
  fun s =>
    match operation s with
    | (Ok v, s') => (Ok v, s')
    | (Throw err, s') =>
        let errorMessage := errorMessage_of err in
        if includes errorMessage "permission" || includes errorMessage "403" then
          bind (console_error
                  ("[GSC] Permission error in " ++ context ++ ", trying normalized URL...")%string)
               (fun _ => fallbackOperation) s'
        else
          (Throw (Error_ ("[GSC] " ++ context ++ " failed: " ++ message_or_String err)%string), s')
    end.

(** [webmasters.searchanalytics.query({ siteUrl, requestBody })] *)
Definition query (webmasters : AuthClient) (siteUrl : string)
    (requestBody : SearchAnalyticsQueryRequest) : M Response.t :=
  fun s =>
    let (r, w) := searchanalytics_query webmasters siteUrl requestBody (world s) in
    (r, {| this := this s; world := w;
           trace := (trace s ++ [Query siteUrl requestBody])%list |}).

Definition searchAnalytics (siteUrl : string)
    (requestBody : SearchAnalyticsQueryRequest) : M Response.t :=
  bind getWebmasters (fun webmasters =>
    withPermissionFallback
      (query webmasters siteUrl requestBody)
      (query webmasters (normalizeUrl siteUrl) requestBody)
      "searchAnalytics").

(** [enhancedRequestBody], the clone of the request body with the
    pattern filter applied. *)
Definition enhancedRequestBody
    (requestBody : Request.t) (options : EnhancedSearchAnalyticsOptions) : Request.t :=
  if truthy (regexFilter options) &&
     match Request.dimensions requestBody with
     | Some dimensions => List.existsb (String.eqb "query") dimensions
     | None => false
     end
  then
    {| Request.startDate := Request.startDate requestBody;
       Request.endDate := Request.endDate requestBody;
       Request.dimensions := Request.dimensions requestBody;
       Request.searchType := Request.searchType requestBody;
       Request.aggregationType := Request.aggregationType requestBody;
       Request.rowLimit := Request.rowLimit requestBody;
       Request.startRow := Request.startRow requestBody;
       Request.dataState := Request.dataState requestBody;
       Request.dimensionFilterGroups :=
         Some ((match Request.dimensionFilterGroups requestBody with
                | Some groups => groups
                | None => []
                end) ++
               [ {| groupType := "and";
                    filters :=
                      [ {| dimension := "query";
                           operator := "includingRegex";
                           expression :=
                             match regexFilter options with
                             | Some r => r
                             | None => ""%string
                             end |} ] |} ])%list |}
  else requestBody.

(** [options.enableQuickWins] as a condition. *)
Definition truthy_bool (b : option bool) : bool :=
  match b with Some true => true | _ => false end.

(** The method returns [{ data: enhancedResponse }]; the model returns
    the [data]. *)
Definition enhancedSearchAnalytics (siteUrl : string)
    (requestBody : SearchAnalyticsQueryRequest)
    (options : EnhancedSearchAnalyticsOptions) : M EnhancedSearchAnalyticsResponse :=
  match requestBody with
  | None => throw (Error_ "Request body is required")
  | Some requestBody =>
      let enhancedRequestBody := enhancedRequestBody requestBody options in
      bind (searchAnalytics siteUrl (Some enhancedRequestBody)) (fun result =>
        let rows := match Response.rows result with Some rows => rows | None => [] end in
        let enhancedResponse :=
          {| EnhancedSearchAnalyticsResponse.rows := Some rows;
             EnhancedSearchAnalyticsResponse.responseAggregationType :=
               Response.responseAggregationType result;
             EnhancedSearchAnalyticsResponse.quickWins := None;
             EnhancedSearchAnalyticsResponse.metadata :=
               Some {| Metadata.regexFilterApplied := truthy (regexFilter options);
                       Metadata.quickWinsEnabled := truthy_bool (enableQuickWins options);
                       Metadata.rowLimit :=
                         match Request.rowLimit enhancedRequestBody with
                         | Some n => if truthy_number n then n else 1000
                         | None => 1000
                         end;
                       Metadata.totalRows := List.length rows |} |} in
        if truthy_bool (enableQuickWins options) && (0 <? List.length rows)%nat then
          fun s =>
            match detectQuickWins (this s) rows (quickWinsThresholds options) with
            | Ok quickWins =>
                (Ok {| EnhancedSearchAnalyticsResponse.rows :=
                         EnhancedSearchAnalyticsResponse.rows enhancedResponse;
                       EnhancedSearchAnalyticsResponse.responseAggregationType :=
                         EnhancedSearchAnalyticsResponse.responseAggregationType enhancedResponse;
                       EnhancedSearchAnalyticsResponse.quickWins := Some quickWins;
                       EnhancedSearchAnalyticsResponse.metadata :=
                         EnhancedSearchAnalyticsResponse.metadata enhancedResponse |}, s)
            | Throw e => (Throw e, s)
            end
        else ret enhancedResponse)
  end.

End Service.

Arguments State World : clear implicits.
Arguments M World A : clear implicits.
Arguments this {World} _.
Arguments world {World} _.
Arguments trace {World} _.
Arguments ret {World A} v _.
Arguments throw {World A} e _.
Arguments bind {World A B} m k _.
Arguments emit {World} ev _.
Arguments console_error {World} msg _.
Arguments external {World A} label f _.
Arguments getAuthClient {World} auth_getClient _.
Arguments getWebmasters {World} auth_getClient _.
Arguments query {World} searchanalytics_query webmasters siteUrl requestBody _.
Arguments withPermissionFallback {World T} operation fallbackOperation context _.
Arguments searchAnalytics {World} auth_getClient searchanalytics_query URL_hostname
  siteUrl requestBody _.
Arguments enhancedSearchAnalytics {engine World} auth_getClient searchanalytics_query
  URL_hostname siteUrl requestBody options _.

End SearchConsole.

(* ================================================================== *)
(** * src/index.ts *)
(* ================================================================== *)

Module Index.

Import JS Schemas SearchConsole.
Open Scope string_scope.

(** [filters.push(...)] under a condition. *)
Definition push_if (cond : bool) (f : ApiDimensionFilter)
    (filters : list ApiDimensionFilter) : list ApiDimensionFilter :=
  if cond then (filters ++ [f])%list else filters.

Definition filter_value (x : option string) : string :=
  match x with Some v => v | None => "" end.

Definition buildFilterGroups (args : SearchAnalytics)
    : option (list ApiDimensionFilterGroup) :=
  let filters : list ApiDimensionFilter := [] in
  let filters :=
    push_if (truthy (SearchAnalytics.pageFilter args))
      {| dimension := "page";
         operator := SearchAnalytics.filterOperator args;
         expression := filter_value (SearchAnalytics.pageFilter args) |} filters in
  let filters :=
    push_if (truthy (SearchAnalytics.queryFilter args))
      {| dimension := "query";
         operator := SearchAnalytics.filterOperator args;
         expression := filter_value (SearchAnalytics.queryFilter args) |} filters in
  let filters :=
    push_if (truthy (SearchAnalytics.countryFilter args))
      {| dimension := "country";
         operator := "equals";
         expression := filter_value (SearchAnalytics.countryFilter args) |} filters in
  let filters :=
    push_if (truthy (SearchAnalytics.deviceFilter args))
      {| dimension := "device";
         operator := "equals";
         expression := filter_value (SearchAnalytics.deviceFilter args) |} filters in
  if (0 <? List.length filters)%nat
  then Some [ {| groupType := "and"; filters := filters |} ]
  else None.

Definition buildSearchAnalyticsRequest (args : SearchAnalytics) : Request.t :=
  {| Request.startDate := Some (SearchAnalytics.startDate args);
     Request.endDate := Some (SearchAnalytics.endDate args);
     Request.dimensions :=
       match SearchAnalytics.dimensions args with
       | Some dimensions => Some (List.map trim (split_char "," dimensions))
       | None => None
       end;
     Request.searchType := SearchAnalytics.type args;
     Request.aggregationType := SearchAnalytics.aggregationType args;
     Request.rowLimit := Some (SearchAnalytics.rowLimit args);
     Request.startRow := Some (SearchAnalytics.startRow args);
     Request.dataState := Some (SearchAnalytics.dataState args);
     Request.dimensionFilterGroups := buildFilterGroups args |}.

End Index.

(* ================================================================== *)
(** * src/schemas.ts: validation helpers *)
(* ================================================================== *)

Module SchemaHelpers.

Import JS.
Open Scope string_scope.

Definition VALID_DIMENSIONS : list string :=
  ["query"; "page"; "country"; "device"; "searchAppearance"; "date"; "hour"].

(** [VALID_DIMENSIONS.includes(d)] *)
Definition Array_includes (l : list string) (d : string) : bool :=
  List.existsb (String.eqb d) l.

Definition validateDimensions (val : string) : bool :=
  let dims := List.map trim (split_char "," val) in
  List.forallb (fun d => Array_includes VALID_DIMENSIONS d) dims.

End SchemaHelpers.

(* ================================================================== *)
(** * src/search-console.ts: the other methods of the service *)
(* ================================================================== *)

Module SearchConsoleApi.

Import JS Schemas SearchConsole.
Open Scope string_scope.

(** The parameters of the sitemap endpoints. *)
Record ListSitemapsRequest : Type := {
  list_siteUrl : option string;
  sitemapIndex : option string
}.

(** [GetSitemapRequest], [SubmitSitemapRequest] and [DeleteSitemapRequest]
    have the same two fields. *)
Record SitemapRequest : Type := {
  siteUrl : option string;
  feedpath : option string
}.

Record IndexInspectRequest : Type := {
  inspect_siteUrl : option string;
  inspectionUrl : option string;
  languageCode : option string
}.

(** What the constructor sets up: the key file and scopes handed to
    [GoogleAuth], and the fields of the new object. *)
Record Constructed : Type := {
  keyFile : string;
  scopes : list string;
  service : SearchConsoleService
}.

(** [constructor(credentials, writeAccess = true)] *)
Definition constructor (credentials : string) (writeAccess : option bool) : Constructed :=
  let writeAccess := match writeAccess with Some b => b | None => true end in
  let scopes :=
    if writeAccess
    then ["https://www.googleapis.com/auth/webmasters"]
    else ["https://www.googleapis.com/auth/webmasters.readonly"] in
  {| keyFile := credentials;
     scopes := scopes;
     service := {| cachedAuthClient := None; hasWriteAccess := writeAccess |} |}.

Section Api.

(** The outside world and the endpoints of the two upstream clients; the
    response types are those of the client library. *)
Variable World : Type.
Variables SitesList SitemapsList Sitemap Void Inspection : Type.
Variable auth_getClient : World -> result AuthClient * World.
Variable sites_list : AuthClient -> World -> result SitesList * World.
Variable sitemaps_list :
  AuthClient -> ListSitemapsRequest -> World -> result SitemapsList * World.
Variable sitemaps_get :
  AuthClient -> SitemapRequest -> World -> result Sitemap * World.
Variable sitemaps_submit :
  AuthClient -> SitemapRequest -> World -> result Void * World.
Variable sitemaps_delete :
  AuthClient -> SitemapRequest -> World -> result Void * World.
Variable index_inspect :
  AuthClient -> IndexInspectRequest -> World -> result Inspection * World.
Variable URL_hostname : string -> option string.

(** [this.normalizeUrl(request.siteUrl!)]: the assertion [!] is erased at
    run time, and [url.startsWith] raises a [TypeError] on [undefined]. *)
Definition normalizeUrl_asserted (siteUrl : option string) : result string :=
  match siteUrl with
  | Some url => Ok (normalizeUrl URL_hostname url)
  | None => Throw (Error_ "Cannot read properties of undefined (reading 'startsWith')")
  end.

(** The searchconsole API client is the authenticated handle, as the
    webmasters client is. *)
Definition getSearchConsole : M World AuthClient :=
  bind (getAuthClient auth_getClient) (fun authClient => ret authClient).

Definition listSites : M World SitesList :=
  bind (getWebmasters auth_getClient) (fun webmasters =>
    external "sites.list" (sites_list webmasters)).

(** The fallback closure of a sitemap method: the request is spread and
    its [siteUrl] replaced by the normalized one. *)
Definition sitemap_fallback {R} (label : string)
    (endpoint : AuthClient -> SitemapRequest -> World -> result R * World)
    (webmasters : AuthClient) (request : SitemapRequest) : M World R :=
  match normalizeUrl_asserted (siteUrl request) with
  | Ok url =>
      external label
        (endpoint webmasters {| siteUrl := Some url; feedpath := feedpath request |})
  | Throw e => throw e
  end.

Definition listSitemaps (request : ListSitemapsRequest) : M World SitemapsList :=
  bind (getWebmasters auth_getClient) (fun webmasters =>
    withPermissionFallback
      (external "sitemaps.list" (sitemaps_list webmasters request))
      (match normalizeUrl_asserted (list_siteUrl request) with
       | Ok url =>
           external "sitemaps.list"
             (sitemaps_list webmasters
                {| list_siteUrl := Some url; sitemapIndex := sitemapIndex request |})
       | Throw e => throw e
       end)
      "listSitemaps").

Definition getSitemap (request : SitemapRequest) : M World Sitemap :=
  bind (getWebmasters auth_getClient) (fun webmasters =>
    withPermissionFallback
      (external "sitemaps.get" (sitemaps_get webmasters request))
      (sitemap_fallback "sitemaps.get" sitemaps_get webmasters request)
      "getSitemap").

Definition submitSitemap (request : SitemapRequest) : M World Void :=
  fun s =>
    if negb (hasWriteAccess (this s)) then
      throw (Error_ "Write access required to submit sitemaps. Initialize service with writeAccess: true") s
    else
      bind (getWebmasters auth_getClient) (fun webmasters =>
        withPermissionFallback
          (external "sitemaps.submit" (sitemaps_submit webmasters request))
          (sitemap_fallback "sitemaps.submit" sitemaps_submit webmasters request)
          "submitSitemap") s.

Definition deleteSitemap (request : SitemapRequest) : M World Void :=
  fun s =>
    if negb (hasWriteAccess (this s)) then
      throw (Error_ "Write access required to delete sitemaps. Initialize service with writeAccess: true") s
    else
      bind (getWebmasters auth_getClient) (fun webmasters =>
        withPermissionFallback
          (external "sitemaps.delete" (sitemaps_delete webmasters request))
          (sitemap_fallback "sitemaps.delete" sitemaps_delete webmasters request)
          "deleteSitemap") s.

(** [indexInspect]: every exception of the call is caught and re-thrown
    with the context; obtaining the client is outside the [try]. *)
Definition indexInspect (requestBody : IndexInspectRequest) : M World Inspection :=
  bind getSearchConsole (fun searchConsole =>
    fun s =>
      match external "urlInspection.index.inspect"
              (index_inspect searchConsole requestBody) s with
      | (Ok v, s') => (Ok v, s')
      | (Throw err, s') =>
          (Throw (Error_ ("[GSC] indexInspect failed: " ++ message_or_String err)), s')
      end).

End Api.

Arguments listSites {World SitesList} auth_getClient sites_list _.
Arguments listSitemaps {World SitemapsList} auth_getClient sitemaps_list URL_hostname request _.
Arguments getSitemap {World Sitemap} auth_getClient sitemaps_get URL_hostname request _.
Arguments submitSitemap {World Void} auth_getClient sitemaps_submit URL_hostname request _.
Arguments deleteSitemap {World Void} auth_getClient sitemaps_delete URL_hostname request _.
Arguments indexInspect {World Inspection} auth_getClient index_inspect requestBody _.
Arguments sitemap_fallback {World} URL_hostname {R} label endpoint webmasters request _.

End SearchConsoleApi.

(* ================================================================== *)
(** * src/index.ts: the quick-wins report *)
(* ================================================================== *)

Module IndexHandlers.

Import JS Schemas SearchConsole Index.
Open Scope string_scope.
Open Scope float_scope.

(** [z.infer<typeof QuickWinsDetectionSchema>]: after parsing every
    threshold is present. *)
Record QuickWinsDetection : Type := {
  siteUrl : string;
  startDate : string;
  endDate : string;
  p_minImpressions : float;
  p_maxCtr : float;
  p_positionRangeMin : float;
  p_positionRangeMax : float;
  p_targetCtr : float;
  p_estimatedClickValue : float;
  p_conversionRate : float
}.

Record SummaryThresholds : Type := {
  s_minImpressions : float;
  s_maxCtr : float;
  positionRange : string;
  s_targetCtr : float
}.

Record Summary : Type := {
  totalOpportunities : nat;
  totalAdditionalClicks : float;
  totalEstimatedValue : float;
  thresholds : SummaryThresholds
}.

Record Report : Type := {
  quickWins : list QuickWin;
  summary : Summary;
  analysisComplete : bool
}.

(** [l.reduce((sum, qw) => sum + f(qw), 0)] *)
Definition reduce_sum (f : QuickWin -> float) (l : list QuickWin) : float :=
  List.fold_left (fun sum qw => sum + f qw) l 0.

Section Handler.

Context {engine : Engine}.
Variable World : Type.
Variable auth_getClient : World -> result AuthClient * World.
Variable searchanalytics_query :
  AuthClient -> string -> SearchAnalyticsQueryRequest -> World ->
  result Response.t * World.
Variable URL_hostname : string -> option string.
(** The conversion of a number in a template literal. *)
Variable Number_toString : float -> string.

(** The request body of the [detect_quick_wins] tool. *)
Definition detect_requestBody (parsed : QuickWinsDetection) : Request.t :=
  {| Request.startDate := Some (startDate parsed);
     Request.endDate := Some (endDate parsed);
     Request.dimensions := Some ["query"%string; "page"%string];
     Request.searchType := None;
     Request.aggregationType := None;
     Request.rowLimit := Some 25000;
     Request.startRow := None;
     Request.dataState := Some "final"%string;
     Request.dimensionFilterGroups := None |}.

Definition detect_options (parsed : QuickWinsDetection) : EnhancedSearchAnalyticsOptions :=
  {| regexFilter := None;
     enableQuickWins := Some true;
     quickWinsThresholds :=
       Some {| minImpressions := Some (p_minImpressions parsed);
               maxCtr := Some (p_maxCtr parsed);
               positionRangeMin := Some (p_positionRangeMin parsed);
               positionRangeMax := Some (p_positionRangeMax parsed);
               targetCtr := Some (p_targetCtr parsed);
               estimatedClickValue := Some (p_estimatedClickValue parsed);
               conversionRate := Some (p_conversionRate parsed) |} |}.

(** The report handed to [formatResponse]. *)
Definition quick_wins_report (parsed : QuickWinsDetection)
    (data : EnhancedSearchAnalyticsResponse) : Report :=
  let quickWins := EnhancedSearchAnalyticsResponse.quickWins data in
  {| quickWins := match quickWins with Some l => l | None => [] end;
     summary :=
       {| totalOpportunities :=
            match quickWins with Some l => List.length l | None => 0%nat end;
          totalAdditionalClicks :=
            match quickWins with
            | Some l => reduce_sum QuickWin.additionalClicks l
            | None => 0
            end;
          totalEstimatedValue :=
            match quickWins with
            | Some l => reduce_sum QuickWin.estimatedValue l
            | None => 0
            end;
          thresholds :=
            {| s_minImpressions := p_minImpressions parsed;
               s_maxCtr := p_maxCtr parsed;
               positionRange :=
                 (Number_toString (p_positionRangeMin parsed) ++ "-" ++
                  Number_toString (p_positionRangeMax parsed))%string;
               s_targetCtr := p_targetCtr parsed |} |};
     analysisComplete := true |}.

(** The [detect_quick_wins] case of the tool handler, from the parsed
    arguments to the data handed to [formatResponse]. *)
Definition detect_quick_wins (parsed : QuickWinsDetection) : M World Report :=
  bind (enhancedSearchAnalytics auth_getClient searchanalytics_query URL_hostname
          (siteUrl parsed) (Some (detect_requestBody parsed)) (detect_options parsed))
       (fun data => ret (quick_wins_report parsed data)).

End Handler.

Arguments detect_quick_wins {engine World} auth_getClient searchanalytics_query URL_hostname
  Number_toString parsed _.

End IndexHandlers.

(* ================================================================== *)
(** * Constant-time buffer comparison ([bufferEq]) *)
(* ================================================================== *)

Module BufferEq.

Local Open Scope Z_scope.

(** The arguments: a [Buffer] with its bytes, or anything else. *)
Inductive value : Type :=
  | Buffer (bytes : list Byte.byte)
  | NotBuffer.

(** [ToInt32], the conversion the bitwise operators apply to their
    result. *)
Definition ToInt32 (z : Z) : Z := (z + 2 ^ 31) mod 2 ^ 32 - 2 ^ 31.

(** [a[i]] as an operand of a bitwise operator: the byte, or [0] for the
    [undefined] of an index out of range. *)
Definition at_index (a : list Byte.byte) (i : nat) : Z :=
  match nth_error a i with
  | Some x => Z.of_N (Byte.to_N x)
  | None => 0
  end.

(** The loop of the fallback: [c |= a[i] ^ b[i]] for [i] from [0] to
    [a.length - 1]. *)
Definition xor_fold (a b : list Byte.byte) : Z :=
  List.fold_left
    (fun c i => ToInt32 (Z.lor c (ToInt32 (Z.lxor (at_index a i) (at_index b i)))))
    (List.seq 0 (List.length a)) 0.

(** [crypto.timingSafeEqual] is [None] where the platform lacks it. *)
Definition bufferEq (timingSafeEqual : option (list Byte.byte -> list Byte.byte -> bool))
    (a b : value) : bool :=
  match a, b with
  | Buffer a, Buffer b =>
      if negb (Nat.eqb (List.length a) (List.length b)) then false
      else match timingSafeEqual with
           | Some native => native a b
           | None => Z.eqb (xor_fold a b) 0
           end
  | _, _ => false
  end.

End BufferEq.

(* ================================================================== *)
(** * Vocabulary of the properties *)
(* ================================================================== *)

(** ** The order of binary64 values

    [Prim2SF] maps a primitive float to its sign, mantissa and exponent.
    [rank] sends every value that is not NaN to a triple of integers whose
    lexicographic order is the order of the values. *)

Definition SFnum (x : spec_float) : bool :=
  match x with S754_nan => false | _ => true end.

Definition rank (x : spec_float) : Z * Z * Z :=
  match x with
  | S754_nan => (0, 0, 0)
  | S754_zero _ => (0, 0, 0)
  | S754_infinity true => (-2, 0, 0)
  | S754_infinity false => (2, 0, 0)
  | S754_finite true m e => (-1, - e, Zneg m)
  | S754_finite false m e => (1, e, Zpos m)
  end%Z.

Definition lex_lt (r1 r2 : Z * Z * Z) : Prop :=
  let '(a1, b1, c1) := r1 in
  let '(a2, b2, c2) := r2 in
  (a1 < a2 \/ (a1 = a2 /\ (b1 < b2 \/ (b1 = b2 /\ c1 < c2))))%Z.

Definition SFpositive (x : spec_float) : bool :=
  match x with
  | S754_infinity false | S754_finite false _ _ => true
  | _ => false
  end.

Definition SFnegative (x : spec_float) : bool :=
  match x with
  | S754_infinity true | S754_finite true _ _ => true
  | _ => false
  end.

Definition SFsigned (s : bool) (z : spec_float) : Prop :=
  match z with
  | S754_zero s' | S754_infinity s' | S754_finite s' _ _ => s' = s
  | S754_nan => False
  end.

Definition SFnonzero (z : spec_float) : Prop :=
  match z with
  | S754_infinity _ | S754_finite _ _ _ => True
  | _ => False
  end.

Definition frank (x : float) : Z * Z * Z := rank (Prim2SF x).

(** The outcome of comparing two binary64 values. *)
Inductive float_cmp (x y : float) : Prop :=
  | fc_unordered :
      is_nan x = true \/ is_nan y = true ->
      (x <? y)%float = false -> (x <=? y)%float = false -> (x =? y)%float = false ->
      float_cmp x y
  | fc_lt :
      is_nan x = false -> is_nan y = false -> lex_lt (frank x) (frank y) ->
      (x <? y)%float = true -> (x <=? y)%float = true -> (x =? y)%float = false ->
      float_cmp x y
  | fc_eq :
      is_nan x = false -> is_nan y = false -> frank x = frank y ->
      (x <? y)%float = false -> (x <=? y)%float = true -> (x =? y)%float = true ->
      float_cmp x y
  | fc_gt :
      is_nan x = false -> is_nan y = false -> lex_lt (frank y) (frank x) ->
      (x <? y)%float = false -> (x <=? y)%float = false -> (x =? y)%float = false ->
      float_cmp x y.

(** Zero or finite, as [Prim2SF] sees it. *)
Definition SFfinite (x : spec_float) : bool :=
  match x with
  | S754_zero _ | S754_finite _ _ _ => true
  | _ => false
  end.

(** ** Rounding, in exact arithmetic

    The roundings the specification names, defined on the exact rational
    value of a binary64 number rather than on its bits. *)
Module Exact.

Import QArith_base Qround.
Local Close Scope Q_scope.

(** [m * 2^e] as a fraction. *)
Definition magnitude (m : positive) (e : Z) : Q :=
  if (0 <=? e)%Z then inject_Z (Zpos m * 2 ^ e)
  else Qmake (Zpos m) (Z.to_pos (2 ^ (- e))).

(** The value of the finite number with sign [s], mantissa [m] and
    exponent [e]. *)
Definition value (s : bool) (m : positive) (e : Z) : Q :=
  if s then Qopp (magnitude m e) else magnitude m e.

(** The integer nearest to [q]; of two equally near, the larger. *)
Definition nearest_integer (q : Q) : Z := Qfloor (Qplus q (Qmake 1 2)).

(** The binary64 value of an integer of magnitude at most [2^53]. *)
Definition of_integer (n : Z) : float :=
  SF2Prim (binary_normalize prec emax n 0 false).

Definition signed_zero (s : bool) : float := if s then neg_zero else zero.

(** [round x]: the integer nearest to [x], the larger one on a tie.  A
    number of magnitude [2^52] or more is an integer already; NaN and the
    infinities stay as they are; a result of zero keeps the sign of [x]. *)
Definition round (x : float) : float :=
  match Prim2SF x with
  | S754_finite s m e =>
      if (4503599627370496 <=? abs x)%float then x
      else
        let n := nearest_integer (value s m e) in
        if (n =? 0)%Z then signed_zero s else of_integer n
  | _ => x
  end.

(** [max (0, x)]; NaN stays NaN. *)
Definition max0 (x : float) : float :=
  if (x <=? 0)%float then 0%float else x.

(** [x] rounded to [digits] decimals: with [n] the integer nearest to
    [|x| * 10^digits] (the larger one on a tie), the binary64 number
    closest to [n / 10^digits], with the sign of [x].  Numbers of
    magnitude [10^21] or more, NaN and the infinities stay as they are. *)
Definition round_decimals (digits : Z) (x : float) : float :=
  match Prim2SF x with
  | S754_finite s m e =>
      if (1e21 <=? abs x)%float then x
      else
        match nearest_integer (Qmult (magnitude m e) (inject_Z (10 ^ digits))) with
        | Zpos n =>
            SF2Prim (SFdiv prec emax (S754_finite s n 0)
                                     (S754_finite false (Z.to_pos (10 ^ digits)) 0))
        | _ => signed_zero s
        end
  | S754_zero _ => zero
  | _ => x
  end.

Definition round2 (x : float) : float := round_decimals 2 x.

End Exact.

Module Spec.

Import JS Schemas SearchConsole Index.
Open Scope string_scope.
Open Scope float_scope.

(** ** Detection *)

(** The value of a threshold in effect: the caller's where the profile
    gives one, the default otherwise. *)
Definition effective (profile : option QuickWinsThresholds)
    (field : QuickWinsThresholds -> option float) (default : float) : float :=
  match profile with
  | Some given => match field given with Some v => v | None => default end
  | None => default
  end.

(** The inclusion rule of the specification: impressions at least
    [minImpressions], click-through-rate in percent at most [maxCtr],
    position within [positionRangeMin, positionRangeMax]; a missing field
    of the row counts as 0.  Defaults: 50, 2.0, 4 and 10. *)
Definition included (profile : option QuickWinsThresholds)
    (row : SearchAnalyticsRow) : bool :=
  let impressions := match impressions row with Some v => v | None => 0 end in
  let percentage := (match ctr row with Some v => v | None => 0 end) * 100 in
  let position := match position row with Some v => v | None => 0 end in
  num_ge impressions (effective profile minImpressions 50) &&
  num_le percentage (effective profile maxCtr 2.0) &&
  num_ge position (effective profile positionRangeMin 4) &&
  num_le position (effective profile positionRangeMax 10).

(** The metrics of the specification for the opportunity [q] of [row]:
    the projected clicks at the target click-through-rate (default 5),
    the additional clicks, their value at the value per click (default 1)
    raised by the conversion rate (default 0.03), and the tier.  The
    arithmetic is binary64; a missing impression count is NaN and a
    missing click count 0. *)
Definition derived (profile : option QuickWinsThresholds)
    (row : SearchAnalyticsRow) (q : QuickWin) : Prop :=
  let impressions := match impressions row with Some v => v | None => nan end in
  let clicks := match clicks row with Some v => v | None => 0 end in
  let targetCtr := effective profile targetCtr 5.0 in
  let estimatedClickValue := effective profile estimatedClickValue 1.0 in
  let conversionRate := effective profile conversionRate 0.03 in
  QuickWin.potentialClicks q = Exact.round (impressions * targetCtr / 100) /\
  QuickWin.additionalClicks q = Exact.max0 (QuickWin.potentialClicks q - clicks) /\
  QuickWin.estimatedValue q =
    Exact.round2 (QuickWin.additionalClicks q * estimatedClickValue *
                  (1 + conversionRate)) /\
  (QuickWin.opportunity q = High <->
     num_ge (QuickWin.additionalClicks q) 100 = true) /\
  (QuickWin.opportunity q = Medium <->
     num_ge (QuickWin.additionalClicks q) 25 = true /\
     num_lt (QuickWin.additionalClicks q) 100 = true) /\
  (QuickWin.opportunity q = Low <->
     num_ge (QuickWin.additionalClicks q) 100 = false /\
     num_ge (QuickWin.additionalClicks q) 25 = false).



(** The exception of [position.toFixed] on a row without position. *)
Definition no_position : exn :=
  Error_ "Cannot read properties of undefined (reading 'toFixed')".

(** The ranges [QuickWinsThresholdsSchema] enforces on the thresholds
    before detection is reached; the defaults lie within them. *)
Definition validated (th : Thresholds) : bool :=
  (1 <=? th_minImpressions th) &&
  (0 <=? th_maxCtr th) && (th_maxCtr th <=? 100) &&
  (1 <=? th_positionRangeMin th) && (th_positionRangeMin th <=? 100) &&
  (1 <=? th_positionRangeMax th) && (th_positionRangeMax th <=? 100) &&
  (0 <=? th_targetCtr th) && (th_targetCtr th <=? 100) &&
  (0 <=? th_estimatedClickValue th) &&
  (0 <=? th_conversionRate th) && (th_conversionRate th <=? 1).

Definition finite_field (x : option float) : bool :=
  match x with Some v => is_finite v | None => true end.

(** A row as a JSON response carries it: the numbers it has are finite. *)
Definition finite_row (row : SearchAnalyticsRow) : bool :=
  finite_field (clicks row) && finite_field (impressions row) &&
  finite_field (ctr row) && finite_field (position row).

(** Descending order of [additionalClicks]. *)
Definition descending (l : list QuickWin) : Prop :=
  StronglySorted
    (fun a b => num_ge (QuickWin.additionalClicks a) (QuickWin.additionalClicks b) = true) l.


(** ** Permission fallback *)

(** The test [withPermissionFallback] applies to a caught value. *)
Definition permission_related (err : exn) : bool :=
  includes (errorMessage_of err) "permission" || includes (errorMessage_of err) "403".

(** ** Query builder *)

(** The simple filter of the arguments that belongs to a dimension. *)
Definition simple_filter (args : SearchAnalytics) (dim : string) : option string :=
  if String.eqb dim "page" then SearchAnalytics.pageFilter args
  else if String.eqb dim "query" then SearchAnalytics.queryFilter args
  else if String.eqb dim "country" then SearchAnalytics.countryFilter args
  else if String.eqb dim "device" then SearchAnalytics.deviceFilter args
  else None.

Definition filter_order : list string := ["page"; "query"; "country"; "device"].

(** A filter is present when the builder's test on it succeeds: it is
    given and is not the empty string. *)
Definition present (args : SearchAnalytics) (dim : string) : bool :=
  truthy (simple_filter args dim).

Definition expected_operator (args : SearchAnalytics) (dim : string) : string :=
  if String.eqb dim "country" || String.eqb dim "device" then "equals"
  else SearchAnalytics.filterOperator args.

(** ** Pattern filter *)

Definition requests_query (requestBody : Request.t) : bool :=
  match Request.dimensions requestBody with
  | Some dimensions => List.existsb (String.eqb "query") dimensions
  | None => false
  end.

Definition groups_of (requestBody : Request.t) : list ApiDimensionFilterGroup :=
  match Request.dimensionFilterGroups requestBody with
  | Some groups => groups
  | None => []
  end.

Definition regex_group (pattern : string) : ApiDimensionFilterGroup :=
  {| groupType := "and";
     filters := [ {| dimension := "query"; operator := "includingRegex";
                     expression := pattern |} ] |}.

(** The request body with its filter groups replaced. *)
Definition with_groups (requestBody : Request.t)
    (groups : list ApiDimensionFilterGroup) : Request.t :=
  {| Request.startDate := Request.startDate requestBody;
     Request.endDate := Request.endDate requestBody;
     Request.dimensions := Request.dimensions requestBody;
     Request.searchType := Request.searchType requestBody;
     Request.aggregationType := Request.aggregationType requestBody;
     Request.rowLimit := Request.rowLimit requestBody;
     Request.startRow := Request.startRow requestBody;
     Request.dataState := Request.dataState requestBody;
     Request.dimensionFilterGroups := Some groups |}.





(** ** A concrete outside world for the examples *)

(** An engine whose sort leaves the array as it is when the comparator
    is inconsistent. *)
Definition idle_engine : Engine :=
  {| implementation_defined_order := fun A comparefn l => l;
     elements_kept := fun A comparefn l => Permutation_refl l |}.

(** The upstream answers every query with an empty row set; the
    authentication back end hands out one client; [new URL] always
    throws. *)
Definition idle_auth (w : unit) : result AuthClient * unit := (Ok (auth_client 0), w).

Definition idle_query (c : AuthClient) (siteUrl : string)
    (requestBody : SearchAnalyticsQueryRequest) (w : unit) : result Response.t * unit :=
  (Ok {| Response.rows := Some []; Response.responseAggregationType := None |}, w).

Definition no_URL (url : string) : option string := None.

Definition fresh_state : State unit :=
  {| this := {| cachedAuthClient := None; hasWriteAccess := true |};
     world := tt; trace := [] |}.

Definition page_request : Request.t :=
  {| Request.startDate := Some "2024-01-01"; Request.endDate := Some "2024-01-31";
     Request.dimensions := Some ["page"]; Request.searchType := None;
     Request.aggregationType := None; Request.rowLimit := Some 1000;
     Request.startRow := Some 0; Request.dataState := Some "final";
     Request.dimensionFilterGroups := None |}.

Definition query_request : Request.t :=
  {| Request.startDate := Some "2024-01-01"; Request.endDate := Some "2024-01-31";
     Request.dimensions := Some ["query"]; Request.searchType := None;
     Request.aggregationType := None; Request.rowLimit := Some 1000;
     Request.startRow := Some 0; Request.dataState := Some "final";
     Request.dimensionFilterGroups := None |}.

Definition pattern_options : EnhancedSearchAnalyticsOptions :=
  {| regexFilter := Some "(medical|health)"; enableQuickWins := Some false;
     quickWinsThresholds := None |}.

Definition service : SearchConsoleService :=
  {| cachedAuthClient := None; hasWriteAccess := true |}.

(** The row of the specification's worked example. *)
Definition example_row : SearchAnalyticsRow :=
  {| keys := Some ["medical imaging services"; "/services/imaging"];
     clicks := Some 15; impressions := Some 1250;
     ctr := Some 0.012; position := Some 6.2 |}.

(** A row without dimension keys that yields [n] additional clicks under
    the default thresholds; [tag] tells rows with equal yield apart. *)
Definition row_yielding (n : float) (tag : float) : SearchAnalyticsRow :=
  {| keys := None; clicks := Some (500 - n); impressions := Some 10000;
     ctr := Some tag; position := Some 5 |}.

(** A threshold profile that overrides nothing. *)
Definition defaults : QuickWinsThresholds :=
  {| minImpressions := None; maxCtr := None; positionRangeMin := None;
     positionRangeMax := None; targetCtr := None;
     estimatedClickValue := None; conversionRate := None |}.



End Spec.

(** ** Vocabulary of the further properties *)

Module SpecMore.

Import JS Schemas SearchConsole SearchConsoleApi Index Spec.
Open Scope string_scope.
Open Scope float_scope.

(** The levels in increasing order of priority. *)
Definition level (o : Opportunity) : nat :=
  match o with Low => 0 | Medium => 1 | High => 2 end.

(** High before Medium before Low. *)
Definition by_level (l : list QuickWin) : Prop :=
  StronglySorted
    (fun a b => (level (QuickWin.opportunity b) <= level (QuickWin.opportunity a))%nat) l.

Definition position_advice (recommendation : string) : bool :=
  startsWith recommendation "Improve content depth and relevance to reach top 3" ||
  startsWith recommendation "Focus on on-page SEO and internal linking".

Definition generic_advice : string := "Review content for optimization opportunities".

(** The warning [withPermissionFallback] prints before the retry. *)
Definition fallback_warning (context : string) : string :=
  "[GSC] Permission error in " ++ context ++ ", trying normalized URL...".

(** [stripped] is [url] without the "http://" or "https://" it starts
    with, if it starts with one. *)
Definition without_scheme (url stripped : string) : Prop :=
  url = "https://" ++ stripped \/
  url = "http://" ++ stripped \/
  (startsWith url "https://" = false /\ startsWith url "http://" = false /\
   stripped = url).

(** What a sitemap method comes to after a permission error of its
    endpoint that left the outside world in [w1]: with a site URL, the
    outcome of one more call with that URL normalized; without one, the
    [TypeError] of the normalization, after the warning. *)
Definition retry_outcome {World R} (URL_hostname : string -> option string)
    (label context : string)
    (endpoint : AuthClient -> SitemapRequest -> World -> result R * World)
    (client : AuthClient) (request : SitemapRequest)
    (s : State World) (w1 : World) : result R * State World :=
  match siteUrl request with
  | Some url =>
      let retry := endpoint client
                     {| siteUrl := Some (normalizeUrl URL_hostname url);
                        feedpath := feedpath request |} w1 in
      (fst retry,
       {| this := this s; world := snd retry;
          trace := (trace s ++ [Called label; ConsoleError (fallback_warning context);
                                Called label])%list |})
  | None =>
      (Throw (Error_ "Cannot read properties of undefined (reading 'startsWith')"),
       {| this := this s; world := w1;
          trace := (trace s ++ [Called label;
                                ConsoleError (fallback_warning context)])%list |})
  end.

(** An authentication back end that refuses, and endpoints for the
    examples. *)
Definition failing_auth (w : unit) : result AuthClient * unit :=
  (Throw (Error_ "invalid_grant"), w).

Definition denying_endpoint {Req : Type} (c : AuthClient) (r : Req) (w : unit)
    : result nat * unit :=
  (Throw (Error_ "User does not have sufficient permission for site"), w).

Definition cached_state (writeAccess : bool) : State unit :=
  {| this := {| cachedAuthClient := Some (auth_client 0); hasWriteAccess := writeAccess |};
     world := tt; trace := [] |}.

(** A query endpoint that answers with the given rows. *)
Definition answering_query (rows : list SearchAnalyticsRow) (c : AuthClient)
    (siteUrl : string) (requestBody : SearchAnalyticsQueryRequest) (w : unit)
    : result Response.t * unit :=
  (Ok {| Response.rows := Some rows; Response.responseAggregationType := None |}, w).

(** Arguments of the [detect_quick_wins] tool with the schema's defaults. *)
Definition default_arguments : IndexHandlers.QuickWinsDetection :=
  {| IndexHandlers.siteUrl := "sc-domain:example.com";
     IndexHandlers.startDate := "2024-01-01";
     IndexHandlers.endDate := "2024-01-31";
     IndexHandlers.p_minImpressions := 50;
     IndexHandlers.p_maxCtr := 2;
     IndexHandlers.p_positionRangeMin := 4;
     IndexHandlers.p_positionRangeMax := 10;
     IndexHandlers.p_targetCtr := 5;
     IndexHandlers.p_estimatedClickValue := 1;
     IndexHandlers.p_conversionRate := 0.03 |}.

End SpecMore.

(* ================================================================== *)
(** * Facts about binary64 arithmetic *)
(* ================================================================== *)

Section SpecFloatOrder.
Local Open Scope Z_scope.

Lemma SFcompare_nan_l y : SFcompare S754_nan y = None.
Proof. destruct y; reflexivity. Qed.

Lemma SFcompare_nan_r x : SFcompare x S754_nan = None.
Proof. destruct x; reflexivity. Qed.

Lemma SFcompare_rank x y :
  SFnum x = true -> SFnum y = true ->
  exists c, SFcompare x y = Some c /\
            CompareSpec (rank x = rank y) (lex_lt (rank x) (rank y))
                        (lex_lt (rank y) (rank x)) c.
Proof.
  destruct x as [sx|sx| |sx mx ex], y as [sy|sy| |sy my ey];
    intros Hx Hy; try discriminate; clear Hx Hy.
  all: try (destruct sx; destruct sy; simpl; eexists; (split; [reflexivity|]);
            constructor; simpl; solve [reflexivity | lia]).
  destruct sx, sy; simpl; eexists; (split; [reflexivity|]);
    try (constructor; simpl; lia).
  - destruct (Z.compare_spec ex ey); [subst|constructor; simpl; lia ..].
    change (Pos.compare_cont Eq mx my) with (Pos.compare mx my).
    destruct (Pos.compare_spec mx my); simpl; constructor; simpl;
      first [congruence | lia].
  - destruct (Z.compare_spec ex ey); [subst|constructor; simpl; lia ..].
    change (Pos.compare_cont Eq mx my) with (Pos.compare mx my).
    destruct (Pos.compare_spec mx my); simpl; constructor; simpl;
      first [congruence | lia].
Qed.

End SpecFloatOrder.

Section Rounding.
Local Open Scope Z_scope.

Lemma digits2_pos_bounds m :
  2 ^ (Zpos (digits2_pos m) - 1) <= Zpos m < 2 ^ Zpos (digits2_pos m).
Proof.
  induction m as [p IH|p IH|]; cbn [digits2_pos].
  - rewrite Pos2Z.inj_succ, (Pos2Z.inj_xI p).
    replace (Z.succ (Zpos (digits2_pos p)) - 1) with (Z.succ (Zpos (digits2_pos p) - 1)) by lia.
    rewrite !Z.pow_succ_r by lia. lia.
  - rewrite Pos2Z.inj_succ, (Pos2Z.inj_xO p).
    replace (Z.succ (Zpos (digits2_pos p)) - 1) with (Z.succ (Zpos (digits2_pos p) - 1)) by lia.
    rewrite !Z.pow_succ_r by lia. lia.
  - simpl. lia.
Qed.

Lemma shr_1_div2 r : 0 <= shr_m r -> shr_m (shr_1 r) = shr_m r / 2.
Proof.
  destruct r as [m b s]; simpl. intros Hm.
  destruct m as [|p|p]; [reflexivity| |lia].
  destruct p; simpl.
  - rewrite (Pos2Z.inj_xI p). apply Z.div_unique with 1; lia.
  - rewrite (Pos2Z.inj_xO p). apply Z.div_unique with 0; lia.
  - reflexivity.
Qed.

Lemma iter_shr_1 p : forall r,
  0 <= shr_m r -> shr_m (iter_pos shr_1 p r) = shr_m r / 2 ^ Zpos p.
Proof.
  assert (Hnn : forall a k, 0 <= a -> 0 <= a / 2 ^ Zpos k).
  { intros. apply Z.div_pos; [assumption | apply Z.pow_pos_nonneg; lia]. }
  induction p as [p IH|p IH|]; intros r Hr; cbn [iter_pos];
    try assert (Hpw : 0 < 2 ^ Zpos p) by (apply Z.pow_pos_nonneg; lia).
  - assert (H1 : 0 <= shr_m (shr_1 r))
      by (rewrite shr_1_div2 by assumption; apply Z.div_pos; lia).
    assert (H2 : 0 <= shr_m (iter_pos shr_1 p (shr_1 r)))
      by (rewrite IH by assumption; apply Hnn; assumption).
    rewrite (IH _ H2), (IH _ H1), shr_1_div2 by assumption.
    rewrite !Z.div_div by lia.
    f_equal. rewrite (Pos2Z.inj_xI p).
    replace (2 * Zpos p + 1) with (1 + Zpos p + Zpos p) by lia.
    rewrite !Z.pow_add_r by lia. change (2 ^ 1) with 2. ring.
  - assert (H2 : 0 <= shr_m (iter_pos shr_1 p r))
      by (rewrite IH by assumption; apply Hnn; assumption).
    rewrite (IH _ H2), (IH _ Hr).
    rewrite !Z.div_div by lia.
    f_equal. rewrite (Pos2Z.inj_xO p).
    replace (2 * Zpos p) with (Zpos p + Zpos p) by lia.
    rewrite !Z.pow_add_r by lia. ring.
  - rewrite shr_1_div2 by assumption. reflexivity.
Qed.

Lemma shr_m_of_loc m l : shr_m (shr_record_of_loc m l) = m.
Proof. destruct l as [|[]]; reflexivity. Qed.

Lemma shr_fexp_nonneg m e l :
  0 <= m -> 0 <= shr_m (fst (shr_fexp prec emax m e l)).
Proof.
  intros Hm. unfold shr_fexp, shr.
  destruct (fexp prec emax (Zdigits2 m + e) - e) as [|p|p]; cbn [fst];
    rewrite ?iter_shr_1; rewrite shr_m_of_loc; try assumption.
  apply Z.div_pos; [assumption | apply Z.pow_pos_nonneg; lia].
Qed.

Lemma shr_fexp_pos m e l :
  0 < m -> emin <= e ->
  0 < shr_m (fst (shr_fexp prec emax m e l)) /\
  emin <= snd (shr_fexp prec emax m e l).
Proof.
  intros Hm He. unfold shr_fexp, shr.
  destruct m as [|q|q]; try lia. cbn [Zdigits2].
  pose proof (digits2_pos_bounds q) as Hd.
  remember (fexp prec emax (Zpos (digits2_pos q) + e) - e) as n eqn:Hn.
  unfold fexp, SpecFloat.emin, prec, emax in Hn, He |- *.
  destruct n as [|p|p]; cbn [fst snd]; rewrite ?iter_shr_1;
    rewrite shr_m_of_loc; try lia.
  assert (Hp : Zpos p <= Zpos (digits2_pos q) - 1) by lia.
  split; [|lia].
  apply Z.div_str_pos. split; [apply Z.pow_pos_nonneg; lia|].
  apply Z.le_trans with (2 ^ (Zpos (digits2_pos q) - 1)); [|lia].
  apply Z.pow_le_mono_r; lia.
Qed.

Lemma round_nearest_even_ge m l : m <= round_nearest_even m l.
Proof. destruct l as [|[]]; simpl; try destruct (Z.even m); lia. Qed.

End Rounding.

Section RoundingSign.
Local Open Scope Z_scope.

Lemma binary_round_aux_signed s m e l :
  0 <= m -> SFsigned s (binary_round_aux prec emax s m e l).
Proof.
  intros Hm. unfold binary_round_aux.
  pose proof (shr_fexp_nonneg m e l Hm) as H1.
  destruct (shr_fexp prec emax m e l) as [mrs' e']. cbn [fst] in H1.
  pose proof (round_nearest_even_ge (shr_m mrs') (loc_of_shr_record mrs')) as Hr.
  pose proof (shr_fexp_nonneg (round_nearest_even (shr_m mrs') (loc_of_shr_record mrs'))
                e' loc_Exact ltac:(lia)) as H2.
  destruct (shr_fexp prec emax _ e' loc_Exact) as [mrs'' e'']. cbn [fst] in H2.
  destruct (shr_m mrs'') as [|q|q]; [reflexivity| |lia].
  destruct (e'' <=? emax - prec); reflexivity.
Qed.

Lemma binary_round_aux_nonzero s m e l :
  0 < m -> emin <= e -> SFnonzero (binary_round_aux prec emax s m e l).
Proof.
  intros Hm He. unfold binary_round_aux.
  destruct (shr_fexp_pos m e l Hm He) as [H1 H1e].
  destruct (shr_fexp prec emax m e l) as [mrs' e']. cbn [fst snd] in H1, H1e.
  pose proof (round_nearest_even_ge (shr_m mrs') (loc_of_shr_record mrs')) as Hr.
  destruct (shr_fexp_pos (round_nearest_even (shr_m mrs') (loc_of_shr_record mrs'))
              e' loc_Exact ltac:(lia) H1e) as [H2 _].
  destruct (shr_fexp prec emax _ e' loc_Exact) as [mrs'' e'']. cbn [fst] in H2.
  destruct (shr_m mrs'') as [|q|q]; try lia.
  destruct (e'' <=? emax - prec); exact I.
Qed.

Lemma shl_align_exponent mx ex ex' :
  snd (shl_align mx ex ex') = Z.min ex ex'.
Proof.
  unfold shl_align. destruct (ex' - ex) eqn:E; cbn [snd]; lia.
Qed.

Lemma iter_xO_mul m d : Zpos (Pos.iter xO m d) = Zpos m * 2 ^ Zpos d.
Proof.
  induction d as [|d IH] using Pos.peano_ind.
  - simpl. lia.
  - rewrite Pos.iter_succ, Pos2Z.inj_succ, Z.pow_succ_r by lia.
    rewrite (Pos2Z.inj_xO (Pos.iter xO m d)), IH. ring.
Qed.

Lemma shl_align_mantissa mx ex ex' :
  ex' <= ex -> Zpos (fst (shl_align mx ex ex')) = Zpos mx * 2 ^ (ex - ex').
Proof.
  intros H. unfold shl_align. destruct (ex' - ex) as [|d|d] eqn:E; cbn [fst].
  - replace (ex - ex') with 0 by lia. lia.
  - lia.
  - replace (ex - ex') with (Zpos d) by lia. apply iter_xO_mul.
Qed.

Lemma binary_round_signed s m e : SFsigned s (binary_round prec emax s m e).
Proof.
  unfold binary_round. destruct (shl_align m e _) as [mz ez].
  apply binary_round_aux_signed. lia.
Qed.

Lemma binary_round_nonzero s m e :
  emin <= e -> SFnonzero (binary_round prec emax s m e).
Proof.
  intros He. unfold binary_round.
  pose proof (shl_align_exponent m e (fexp prec emax (Zpos (digits2_pos m) + e))) as Hx.
  destruct (shl_align m e _) as [mz ez]. cbn [snd] in Hx.
  apply binary_round_aux_nonzero; [lia|].
  unfold fexp, SpecFloat.emin, prec, emax in *. lia.
Qed.

Lemma binary_normalize_num m e sz : SFnum (binary_normalize prec emax m e sz) = true.
Proof.
  destruct m as [|p|p]; cbn [binary_normalize]; [reflexivity| |].
  - pose proof (binary_round_signed false p e) as H.
    destruct (binary_round prec emax false p e); simpl in *; tauto.
  - pose proof (binary_round_signed true p e) as H.
    destruct (binary_round prec emax true p e); simpl in *; tauto.
Qed.

Lemma binary_normalize_positive m e :
  emin <= e -> SFpositive (binary_normalize prec emax m e false) = (0 <? m).
Proof.
  intros He. destruct m as [|p|p]; cbn [binary_normalize]; [reflexivity| |].
  - pose proof (binary_round_signed false p e) as H.
    pose proof (binary_round_nonzero false p e He) as H'.
    destruct (binary_round prec emax false p e); simpl in *; subst;
      solve [reflexivity | tauto].
  - pose proof (binary_round_signed true p e) as H.
    destruct (binary_round prec emax true p e); simpl in *; subst;
      solve [reflexivity | tauto].
Qed.

Lemma binary_normalize_negative m e :
  emin <= e -> SFnegative (binary_normalize prec emax m e false) = (m <? 0).
Proof.
  intros He. destruct m as [|p|p]; cbn [binary_normalize]; [reflexivity| |].
  - pose proof (binary_round_signed false p e) as H.
    destruct (binary_round prec emax false p e); simpl in *; subst;
      solve [reflexivity | tauto].
  - pose proof (binary_round_signed true p e) as H.
    pose proof (binary_round_nonzero true p e He) as H'.
    destruct (binary_round prec emax true p e); simpl in *; subst;
      solve [reflexivity | tauto].
Qed.

(** Validity of a finite binary64 value, spelled out. *)
Lemma bounded_facts m e :
  bounded prec emax m e = true ->
  Zpos m < 2 ^ 53 /\ -1074 <= e /\ (-1074 < e -> 2 ^ 52 <= Zpos m).
Proof.
  unfold bounded, canonical_mantissa, fexp, SpecFloat.emin, prec, emax.
  intros H. apply andb_true_iff in H. destruct H as [H _].
  apply Z.eqb_eq in H.
  pose proof (digits2_pos_bounds m) as [Hlo Hhi].
  assert (Hd : Zpos (digits2_pos m) <= 53) by lia.
  split; [|split].
  - apply Z.lt_le_trans with (1 := Hhi). apply Z.pow_le_mono_r; lia.
  - lia.
  - intros He. replace (Zpos (digits2_pos m)) with 53 in Hlo by lia. exact Hlo.
Qed.

Lemma aligned_lt mx ex my ey :
  bounded prec emax mx ex = true -> bounded prec emax my ey = true ->
  ex < ey -> Zpos mx < Zpos my * 2 ^ (ey - ex).
Proof.
  intros Hx Hy Hlt.
  destruct (bounded_facts _ _ Hx) as (Hx1 & Hx2 & _).
  destruct (bounded_facts _ _ Hy) as (_ & _ & Hy3).
  specialize (Hy3 ltac:(lia)).
  assert (2 ^ 1 <= 2 ^ (ey - ex)) by (apply Z.pow_le_mono_r; lia).
  change (2 ^ 1) with 2 in *. change (2 ^ 53) with (2 ^ 52 * 2) in Hx1.
  nia.
Qed.

Lemma SFsub_positive x y :
  valid_binary x = true -> valid_binary y = true ->
  SFpositive (SF64sub y x) = SFltb x y.
Proof.
  intros Vx Vy.
  destruct x as [sx|sx| |sx mx ex], y as [sy|sy| |sy my ey];
    try (destruct sx; destruct sy; reflexivity);
    try (destruct sx; reflexivity); try (destruct sy; reflexivity); try reflexivity.
  cbn [valid_binary] in Vx, Vy.
  unfold SF64sub, SFsub.
  rewrite binary_normalize_positive
    by (destruct (bounded_facts _ _ Vx) as (_ & ? & _);
        destruct (bounded_facts _ _ Vy) as (_ & ? & _);
        unfold SpecFloat.emin, prec, emax; lia).
  rewrite !shl_align_mantissa by lia.
  unfold SFltb.
  destruct (SFcompare_rank (S754_finite sx mx ex) (S754_finite sy my ey) eq_refl eq_refl)
    as (c & -> & Hc).
  assert (Hpx : 0 < 2 ^ (ex - Z.min ey ex)) by (apply Z.pow_pos_nonneg; lia).
  assert (Hpy : 0 < 2 ^ (ey - Z.min ey ex)) by (apply Z.pow_pos_nonneg; lia).
  assert (Hmx : 0 < Zpos mx * 2 ^ (ex - Z.min ey ex)) by (apply Z.mul_pos_pos; lia).
  assert (Hmy : 0 < Zpos my * 2 ^ (ey - Z.min ey ex)) by (apply Z.mul_pos_pos; lia).
  destruct sx, sy; cbn [cond_Zopp rank lex_lt] in *;
    destruct (Z.lt_trichotomy ex ey) as [Hlt|[Heq|Hgt]];
    try pose proof (aligned_lt _ _ _ _ Vx Vy Hlt);
    try pose proof (aligned_lt _ _ _ _ Vy Vx Hgt);
    try subst ey;
    rewrite ?Z.min_id in *; rewrite ?Z.min_r in * by lia;
    rewrite ?Z.min_l in * by lia;
    rewrite ?Z.sub_diag in *; change (2 ^ 0) with 1 in *;
    destruct Hc as [Hc|Hc|Hc]; try (injection Hc; intros); lia.
Qed.

Lemma SFsub_negative x y :
  valid_binary x = true -> valid_binary y = true ->
  SFnegative (SF64sub y x) = SFltb y x.
Proof.
  intros Vx Vy.
  destruct x as [sx|sx| |sx mx ex], y as [sy|sy| |sy my ey];
    try (destruct sx; destruct sy; reflexivity);
    try (destruct sx; reflexivity); try (destruct sy; reflexivity); try reflexivity.
  cbn [valid_binary] in Vx, Vy.
  unfold SF64sub, SFsub.
  rewrite binary_normalize_negative
    by (destruct (bounded_facts _ _ Vx) as (_ & ? & _);
        destruct (bounded_facts _ _ Vy) as (_ & ? & _);
        unfold SpecFloat.emin, prec, emax; lia).
  rewrite !shl_align_mantissa by lia.
  unfold SFltb.
  destruct (SFcompare_rank (S754_finite sy my ey) (S754_finite sx mx ex) eq_refl eq_refl)
    as (c & -> & Hc).
  assert (Hpx : 0 < 2 ^ (ex - Z.min ey ex)) by (apply Z.pow_pos_nonneg; lia).
  assert (Hpy : 0 < 2 ^ (ey - Z.min ey ex)) by (apply Z.pow_pos_nonneg; lia).
  assert (Hmx : 0 < Zpos mx * 2 ^ (ex - Z.min ey ex)) by (apply Z.mul_pos_pos; lia).
  assert (Hmy : 0 < Zpos my * 2 ^ (ey - Z.min ey ex)) by (apply Z.mul_pos_pos; lia).
  destruct sx, sy; cbn [cond_Zopp rank lex_lt] in *;
    destruct (Z.lt_trichotomy ex ey) as [Hlt|[Heq|Hgt]];
    try pose proof (aligned_lt _ _ _ _ Vx Vy Hlt);
    try pose proof (aligned_lt _ _ _ _ Vy Vx Hgt);
    try subst ey;
    rewrite ?Z.min_id in *; rewrite ?Z.min_r in * by lia;
    rewrite ?Z.min_l in * by lia;
    rewrite ?Z.sub_diag in *; change (2 ^ 0) with 1 in *;
    destruct Hc as [Hc|Hc|Hc]; try (injection Hc; intros); lia.
Qed.

End RoundingSign.

Section PrimFloatOrder.
Local Open Scope float_scope.

Lemma SFcompare_refl x : SFnum x = true -> SFcompare x x = Some Eq.
Proof.
  destruct x as [s|s| |s m e]; try discriminate; intros _;
    destruct s; simpl; rewrite ?Z.compare_refl;
    try change (Pos.compare_cont Eq m m) with (Pos.compare m m);
    rewrite ?Pos.compare_refl; reflexivity.
Qed.

Lemma is_nan_spec x : is_nan x = negb (SFnum (Prim2SF x)).
Proof.
  unfold is_nan. rewrite eqb_spec. unfold SFeqb.
  destruct (SFnum (Prim2SF x)) eqn:E.
  - rewrite SFcompare_refl by assumption. reflexivity.
  - destruct (Prim2SF x); try discriminate. reflexivity.
Qed.

Lemma float_cmp_total x y : float_cmp x y.
Proof.
  pose proof (is_nan_spec x) as Nx. pose proof (is_nan_spec y) as Ny.
  pose proof (ltb_spec x y) as L. pose proof (leb_spec x y) as LE.
  pose proof (eqb_spec x y) as E.
  unfold SFltb, SFleb, SFeqb in *.
  destruct (SFnum (Prim2SF x)) eqn:Hx.
  2:{ destruct (Prim2SF x); try discriminate. rewrite SFcompare_nan_l in *.
      apply fc_unordered; auto. }
  destruct (SFnum (Prim2SF y)) eqn:Hy.
  2:{ destruct (Prim2SF y); try discriminate. rewrite SFcompare_nan_r in *.
      apply fc_unordered; auto. }
  destruct (SFcompare_rank _ _ Hx Hy) as (c & Hc & Hs).
  rewrite Hc in *. simpl in Nx, Ny.
  destruct Hs; [apply fc_eq | apply fc_lt | apply fc_gt]; auto.
Qed.

End PrimFloatOrder.

(** Case analysis on the order of the floats in sight, then arithmetic on
    their ranks. *)
Ltac rank_cases :=
  repeat match goal with
         | H : float_cmp _ _ |- _ => destruct H
         end;
  unfold frank in *;
  repeat match goal with
         | H : context [rank ?z] |- _ =>
             let r := fresh "r" in
             set (r := rank z) in *; clearbody r; destruct r as [[? ?] ?]
         end;
  repeat match goal with
         | H : (_, _) = (_, _) |- _ => inversion H; subst; clear H
         end;
  cbn [lex_lt] in *;
  try congruence; try lia;
  repeat match goal with
         | H : _ \/ _ |- _ => destruct H
         end;
  try congruence; try lia.

Ltac float_order2 a b := pose proof (float_cmp_total a b); rank_cases.
Ltac float_order3 a b c :=
  pose proof (float_cmp_total a b); pose proof (float_cmp_total b c);
  pose proof (float_cmp_total a c); rank_cases.

Section PrimFloatFacts.
Local Open Scope float_scope.

Lemma leb_trans a b c :
  (a <=? b) = true -> (b <=? c) = true -> (a <=? c) = true.
Proof. intros. float_order3 a b c. Qed.

Lemma ltb_leb a b : (a <? b) = true -> (a <=? b) = true.
Proof. intros. float_order2 a b. Qed.

Lemma not_ltb_leb a b :
  is_nan a = false -> is_nan b = false -> (a <? b) = false -> (b <=? a) = true.
Proof.
  intros. pose proof (float_cmp_total a b). pose proof (float_cmp_total b a).
  rank_cases.
Qed.

Lemma leb_not_nan a b : (a <=? b) = true -> is_nan a = false /\ is_nan b = false.
Proof. intros. pose proof (float_cmp_total a b) as []; try congruence; auto. Qed.

Lemma between_not_inverted a p b :
  (a <=? p) = true -> (p <=? b) = true -> (b <? a) = false.
Proof.
  intros. pose proof (float_cmp_total a p). pose proof (float_cmp_total p b).
  pose proof (float_cmp_total b a). rank_cases.
Qed.

Lemma leb_false_ltb a x :
  is_nan a = false -> is_nan x = false -> (a <=? x) = false -> (x <? a) = true.
Proof.
  intros. pose proof (float_cmp_total a x). pose proof (float_cmp_total x a).
  rank_cases.
Qed.


Lemma eqb_leb_compat c x y :
  (x =? y) = true -> (c <=? x) = (c <=? y).
Proof.
  intros. pose proof (float_cmp_total x y). pose proof (float_cmp_total c x).
  pose proof (float_cmp_total c y).
  destruct (c <=? x) eqn:E1, (c <=? y) eqn:E2; try reflexivity; exfalso; rank_cases.
Qed.

Lemma Prim2SF_zero : Prim2SF 0 = S754_zero false.
Proof. reflexivity. Qed.

Lemma sub_sign a b : (0 <? b - a) = (a <? b).
Proof.
  rewrite !ltb_spec, sub_spec, Prim2SF_zero.
  rewrite <- (SFsub_positive (Prim2SF a) (Prim2SF b)) by apply Prim2SF_valid.
  destruct (SF64sub (Prim2SF b) (Prim2SF a)) as [s|s| |s m e];
    try destruct s; reflexivity.
Qed.

Lemma sub_sign_neg a b : (b - a <? 0) = (b <? a).
Proof.
  rewrite !ltb_spec, sub_spec, Prim2SF_zero.
  rewrite <- (SFsub_negative (Prim2SF a) (Prim2SF b)) by apply Prim2SF_valid.
  destruct (SF64sub (Prim2SF b) (Prim2SF a)) as [s|s| |s m e];
    try destruct s; reflexivity.
Qed.

End PrimFloatFacts.

Section NotNaN.
Local Open Scope float_scope.

Lemma SFsigned_num s z : SFsigned s z -> SFnum z = true.
Proof. destruct z; simpl; tauto. Qed.

Lemma is_finite_spec x : is_finite x = SFfinite (Prim2SF x).
Proof.
  unfold is_finite, is_infinity. rewrite is_nan_spec, eqb_spec, abs_spec.
  change (Prim2SF infinity) with (S754_infinity false).
  destruct (Prim2SF x) as [s|s| |s m e]; try destruct s; reflexivity.
Qed.

Lemma is_finite_not_nan x : is_finite x = true -> is_nan x = false.
Proof.
  rewrite is_finite_spec, is_nan_spec. destruct (Prim2SF x); simpl; congruence.
Qed.

Lemma mul_not_nan x y :
  is_finite x = true -> is_finite y = true -> is_nan (x * y) = false.
Proof.
  rewrite !is_finite_spec, is_nan_spec, mul_spec. unfold SF64mul.
  destruct (Prim2SF x) as [sx|sx| |sx mx ex], (Prim2SF y) as [sy|sy| |sy my ey];
    try discriminate; intros _ _; try reflexivity.
  unfold SFmul.
  rewrite (SFsigned_num (xorb sx sy)); [reflexivity|].
  apply binary_round_aux_signed. lia.
Qed.

Lemma div_eucl_nonneg a b : (0 <= a)%Z -> (0 < b)%Z -> (0 <= fst (Z.div_eucl a b))%Z.
Proof. intros. change (fst (Z.div_eucl a b)) with (a / b)%Z. apply Z.div_pos; assumption. Qed.

Lemma div_not_nan x y s m e :
  is_nan x = false -> Prim2SF y = S754_finite s m e -> is_nan (x / y) = false.
Proof.
  rewrite !is_nan_spec, div_spec. intros Hx ->. unfold SF64div.
  destruct (Prim2SF x) as [sx|sx| |sx mx ex]; try discriminate; try reflexivity.
  unfold SFdiv, SFdiv_core_binary.
  set (m' := match _ with Zpos _ => _ | Z0 => _ | Zneg _ => _ end).
  assert (Hm' : (0 <= m')%Z).
  { subst m'. destruct (_ - _ - _)%Z; try lia. apply Z.shiftl_nonneg. lia. }
  pose proof (div_eucl_nonneg m' (Zpos m) Hm' ltac:(lia)) as Hq.
  destruct (Z.div_eucl m' (Zpos m)) as [q r]. cbn [fst] in Hq.
  rewrite (SFsigned_num (xorb sx s)); [reflexivity|].
  apply binary_round_aux_signed. assumption.
Qed.

Lemma SFldexp_num z e : SFnum z = true -> SFnum (SFldexp prec emax z e) = true.
Proof.
  destruct z as [s|s| |s m ez]; simpl; auto. intros _.
  apply (SFsigned_num s), binary_round_signed.
Qed.

Lemma SFopp_num z : SFnum (SFopp z) = SFnum z.
Proof. destruct z; reflexivity. Qed.

Lemma SF2Prim_not_nan z : SFnum z = true -> is_nan (SF2Prim z) = false.
Proof.
  destruct z as [s|s| |s m e]; try discriminate; intros _;
    try (destruct s; reflexivity).
  unfold SF2Prim.
  assert (H : SFnum (Prim2SF (Z.ldexp (of_uint63 (Uint63.of_Z (Zpos m))) e)) = true).
  { rewrite Z_ldexp_spec. apply SFldexp_num.
    rewrite of_uint63_spec. apply binary_normalize_num. }
  destruct s; rewrite is_nan_spec, ?opp_spec, ?SFopp_num, H; reflexivity.
Qed.

Lemma Math_round_not_nan x : is_nan x = false -> is_nan (JS.Math_round x) = false.
Proof.
  intros Hx. unfold JS.Math_round.
  destruct (Prim2SF x) as [s|s| |s m e]; auto.
  destruct (0 <=? e)%Z; auto.
  destruct (_ =? 0)%Z; [destruct s; reflexivity|].
  apply SF2Prim_not_nan, binary_normalize_num.
Qed.

Lemma sub_not_nan x y :
  is_nan x = false -> is_finite y = true -> is_nan (x - y) = false.
Proof.
  rewrite is_finite_spec, !is_nan_spec, sub_spec. unfold SF64sub.
  destruct (Prim2SF x) as [sx|sx| |sx mx ex], (Prim2SF y) as [sy|sy| |sy my ey];
    try discriminate; intros _ _; try reflexivity;
    try (destruct sx; destruct sy; reflexivity).
  unfold SFsub. rewrite binary_normalize_num. reflexivity.
Qed.

Lemma Math_max_not_nan a b :
  is_nan a = false -> is_nan b = false -> is_nan (JS.Math_max a b) = false.
Proof.
  intros Ha Hb. unfold JS.Math_max. rewrite Ha, Hb. simpl.
  destruct (a <? b); [assumption|].
  destruct (b <? a); [assumption|].
  destruct (get_sign a); assumption.
Qed.

End NotNaN.

(* ================================================================== *)
(** * Sorting by a numeric key, descending *)
(* ================================================================== *)

Section OrderFacts.
Local Open Scope float_scope.

Lemma ltb_trans a b c : (a <? b) = true -> (b <? c) = true -> (a <? c) = true.
Proof. intros. float_order3 a b c. Qed.

(** Neither below the other: the same number, for numbers that are not
    NaN. *)
Lemma tie_eqb a b :
  is_nan a = false -> is_nan b = false ->
  negb (b <? a) && negb (a <? b) = (a =? b).
Proof.
  intros. pose proof (float_cmp_total a b). pose proof (float_cmp_total b a).
  destruct (b <? a) eqn:E1, (a <? b) eqn:E2, (a =? b) eqn:E3;
    try reflexivity; exfalso; rank_cases.
Qed.

Lemma eqb_refl_num a : is_nan a = false -> (a =? a) = true.
Proof. intros. float_order2 a a. Qed.

Lemma eqb_sym a b : (a =? b) = (b =? a).
Proof.
  pose proof (float_cmp_total a b). pose proof (float_cmp_total b a).
  destruct (a =? b) eqn:E1, (b =? a) eqn:E2; try reflexivity; exfalso; rank_cases.
Qed.

Lemma eqb_trans a b c : (a =? b) = true -> (b =? c) = true -> (a =? c) = true.
Proof. intros. float_order3 a b c. Qed.

End OrderFacts.

Section SortByKey.
Context {engine : JS.Engine}.
Context {A : Type}.
Variable key : A -> float.
Variable comparefn : A -> A -> float.
Hypothesis comparefn_key : forall a b, comparefn a b = (key b - key a)%float.

Local Open Scope float_scope.

Lemma after_ltb x y : JS.after comparefn x y = (key x <? key y).
Proof. unfold JS.after, JS.num_gt. rewrite comparefn_key. apply sub_sign. Qed.

(** The comparator as the sort sees it, in terms of the keys. *)
Lemma gt_C_ltb x y : JS.gt_C comparefn x y = (key x <? key y).
Proof.
  unfold JS.gt_C, JS.SortCompare, JS.num_gt. cbv zeta. rewrite comparefn_key.
  destruct (is_nan (key y - key x)) eqn:E; [|apply sub_sign].
  rewrite <- (sub_sign (key x) (key y)).
  pose proof (float_cmp_total 0 (key y - key x)) as [? H0| | |]; try congruence.
  rewrite H0. reflexivity.
Qed.

Lemma lt_C_ltb x y : JS.lt_C comparefn x y = (key y <? key x).
Proof.
  unfold JS.lt_C, JS.SortCompare, JS.num_lt. cbv zeta. rewrite comparefn_key.
  destruct (is_nan (key y - key x)) eqn:E; [|apply sub_sign_neg].
  rewrite <- (sub_sign_neg (key x) (key y)).
  pose proof (float_cmp_total (key y - key x) 0) as [? H0| | |]; try congruence.
  rewrite H0. reflexivity.
Qed.

Lemma eq_C_tie x y :
  JS.eq_C comparefn x y = negb (key y <? key x) && negb (key x <? key y).
Proof.
  rewrite <- lt_C_ltb, <- gt_C_ltb.
  unfold JS.eq_C, JS.lt_C, JS.gt_C, JS.num_lt, JS.num_gt, JS.SortCompare. cbv zeta.
  destruct (is_nan (comparefn x y)) eqn:E; [reflexivity|].
  assert (E0 : is_nan 0 = false) by reflexivity.
  pose proof (float_cmp_total (comparefn x y) 0).
  pose proof (float_cmp_total 0 (comparefn x y)).
  destruct (comparefn x y =? 0) eqn:E1, (comparefn x y <? 0) eqn:E2,
           (0 <? comparefn x y) eqn:E3; try reflexivity; exfalso; rank_cases.
Qed.

Lemma consistent_at_keys a b c :
  is_nan (key a) = false -> is_nan (key b) = false -> is_nan (key c) = false ->
  JS.consistent_at comparefn a b c = true.
Proof.
  intros Ha Hb Hc. unfold JS.consistent_at.
  rewrite !eq_C_tie, !lt_C_ltb, !gt_C_ltb.
  rewrite !tie_eqb by assumption.
  rewrite (eqb_refl_num _ Ha), (eqb_sym (key b) (key a)).
  rewrite !andb_true_iff. repeat split.
  - destruct (key a =? key b); reflexivity.
  - destruct (key a =? key b) eqn:Eab, (key b =? key c) eqn:Ebc; try reflexivity.
    rewrite (eqb_trans _ _ _ Eab Ebc). reflexivity.
  - destruct (key b <? key a) eqn:L1, (key c <? key b) eqn:L2; try reflexivity.
    rewrite (ltb_trans _ _ _ L2 L1). reflexivity.
  - destruct (key a <? key b) eqn:L1, (key b <? key c) eqn:L2; try reflexivity.
    rewrite (ltb_trans _ _ _ L1 L2). reflexivity.
Qed.

Lemma keys_consistent l :
  Forall (fun a => is_nan (key a) = false) l -> JS.consistent comparefn l = true.
Proof.
  intros H. rewrite Forall_forall in H. unfold JS.consistent.
  apply forallb_forall. intros a Ha.
  apply forallb_forall. intros b Hb.
  apply forallb_forall. intros c Hc.
  apply consistent_at_keys; auto.
Qed.

Lemma insert_perm x l : Permutation (x :: l) (JS.insert comparefn x l).
Proof.
  induction l as [|y l IH]; simpl; [apply Permutation_refl|].
  destruct (JS.after comparefn x y); [|apply Permutation_refl].
  eapply Permutation_trans; [apply perm_swap|]. apply perm_skip, IH.
Qed.

Lemma sorted_order_perm l : Permutation l (JS.sorted_order comparefn l).
Proof.
  induction l as [|x l IH]; simpl; [constructor|].
  eapply Permutation_trans; [apply perm_skip, IH | apply insert_perm].
Qed.

(** Whatever the comparator and the engine, sorting keeps the elements. *)
Lemma Array_sort_perm l : Permutation l (JS.Array_sort comparefn l).
Proof.
  unfold JS.Array_sort. destruct (JS.consistent comparefn l).
  - apply sorted_order_perm.
  - apply JS.elements_kept.
Qed.

(** With keys that are numbers the order is the language's, the same on
    every engine. *)
Lemma Array_sort_keys l :
  Forall (fun a => is_nan (key a) = false) l ->
  JS.Array_sort comparefn l = JS.sorted_order comparefn l.
Proof.
  intros H. unfold JS.Array_sort. rewrite (keys_consistent l H). reflexivity.
Qed.

Lemma insert_sorted x l :
  is_nan (key x) = false -> Forall (fun a => is_nan (key a) = false) l ->
  StronglySorted (fun a b => JS.num_ge (key a) (key b) = true) l ->
  StronglySorted (fun a b => JS.num_ge (key a) (key b) = true) (JS.insert comparefn x l).
Proof.
  intros Hx Hl Hs. induction Hs as [|y l Hs IH Hy]; simpl.
  - repeat constructor.
  - inversion Hl as [|? ? Hny Hl']; subst.
    rewrite after_ltb. destruct (key x <? key y) eqn:E.
    + constructor; [apply IH; assumption|].
      eapply Permutation_Forall; [apply insert_perm|].
      constructor; [|assumption]. unfold JS.num_ge. apply ltb_leb, E.
    + assert (Hxy : JS.num_ge (key x) (key y) = true)
        by (unfold JS.num_ge; apply not_ltb_leb; assumption).
      constructor; [constructor; assumption|].
      constructor; [assumption|].
      eapply Forall_impl; [|exact Hy]. cbv beta. unfold JS.num_ge in *.
      intros z Hz. eapply leb_trans; eassumption.
Qed.

Lemma sorted_order_sorted l :
  Forall (fun a => is_nan (key a) = false) l ->
  StronglySorted (fun a b => JS.num_ge (key a) (key b) = true)
                 (JS.sorted_order comparefn l).
Proof.
  induction 1 as [|x l Hx Hl IH]; simpl; [constructor|].
  apply insert_sorted; [assumption| |assumption].
  eapply Permutation_Forall; [apply sorted_order_perm|assumption].
Qed.

Lemma Array_sort_sorted l :
  Forall (fun a => is_nan (key a) = false) l ->
  StronglySorted (fun a b => JS.num_ge (key a) (key b) = true) (JS.Array_sort comparefn l).
Proof.
  intros H. rewrite (Array_sort_keys l H). apply sorted_order_sorted, H.
Qed.





End SortByKey.

(* ================================================================== *)
(** * The model of the language primitives on known results *)
(* ================================================================== *)

Section ModelChecks.
Import JS.
Context {engine : Engine}.
Local Open Scope float_scope.
Local Open Scope string_scope.

Example Math_round_ties_up :
  Math_round 62.5 = 63 /\ Math_round (-2.5) = -2 /\ Math_round 0.49999999999999994 = 0 /\
  Leibniz.eqb (Math_round (-0.5)) neg_zero = true.
Proof. repeat split. Qed.

Example Math_max_zeros :
  Leibniz.eqb (Math_max 0 (-0)) 0 = true /\ Leibniz.eqb (Math_max (-0) 0) 0 = true /\
  is_nan (Math_max 0 nan) = true /\ Math_max 0 (-3) = 0.
Proof. repeat split. Qed.

(** [(1.005).toFixed(2)] is "1.00", [(1.45).toFixed(1)] is "1.4",
    [(0.5).toFixed(0)] is "1", [(-1.5).toFixed(0)] is "-2" and
    [(-0.001).toFixed(2)] is "-0.00". *)
Example toFixed_known_values :
  toFixed_Number 2 1.005 = 1 /\ toFixed_Number 1 1.45 = 1.4 /\
  toFixed_Number 0 0.5 = 1 /\ toFixed_Number 0 (-1.5) = -2 /\
  Leibniz.eqb (toFixed_Number 2 (-0.001)) neg_zero = true /\
  toFixed_Number 2 1e21 = 1e21.
Proof. repeat split. Qed.

Example string_primitives :
  toLowerCase "Permission DENIED (403)" = "permission denied (403)" /\
  includes "request had insufficient permissions" "permission" = true /\
  includes "not found" "403" = false /\
  List.map trim (split_char "," "query, page") = ["query"; "page"] /\
  split_char "," "" = [""] /\
  truthy (Some "") = false.
Proof. repeat split. Qed.

(** [trim] strips U+00A0 (bytes C2 A0) and U+FEFF (bytes EF BB BF) as
    well as the ASCII white space, and nothing inside the string. *)
Example trim_unicode :
  let nbsp := String (ascii_of_nat 194) (String (ascii_of_nat 160) "") in
  let bom := String (ascii_of_nat 239)
               (String (ascii_of_nat 187) (String (ascii_of_nat 191) "")) in
  trim (nbsp ++ " query" ++ bom ++ nbsp) = "query" /\
  trim (bom ++ "search" ++ nbsp ++ "appearance ") = "search" ++ nbsp ++ "appearance".
Proof. repeat split. Qed.

(** Sorting numbers: descending and stable on every engine when none is
    NaN; with a NaN among them the comparator [b - a] is inconsistent. *)
Example Array_sort_cases :
  Array_sort (fun a b : float => b - a) [10; 100; 25; 100] = [100; 100; 25; 10] /\
  Array_sort (fun a b : float * nat => fst b - fst a)
    [(10, 1%nat); (100, 2%nat); (100, 3%nat); (25, 4%nat)] =
    [(100, 2%nat); (100, 3%nat); (25, 4%nat); (10, 1%nat)] /\
  consistent (fun a b : float => b - a) [10; nan; 100] = false.
Proof. repeat split. Qed.

Example normalizeUrl_cases :
  SearchConsole.normalizeUrl (fun _ => None) "sc-domain:example.com" = "sc-domain:example.com" /\
  SearchConsole.normalizeUrl (fun _ => Some "www.example.com") "https://www.example.com/" =
    "sc-domain:www.example.com" /\
  SearchConsole.normalizeUrl (fun _ => None) "http://example.com/path" = "sc-domain:example.com" /\
  SearchConsole.normalizeUrl (fun _ => None) "example.com/a/b" = "sc-domain:example.com".
Proof. repeat split. Qed.

End ModelChecks.

(* ================================================================== *)
(** * The language's roundings against exact arithmetic *)
(* ================================================================== *)

Section ExactAgreement.
Import QArith_base Qround.
Local Close Scope Q_scope.
Local Open Scope Z_scope.

Lemma half_up_odd k : (2 * k + 1) / 2 = k.
Proof. symmetry. apply Z.div_unique with 1; lia. Qed.

(** The integer nearest to a value with a negative exponent, in terms of
    mantissa and exponent. *)
Lemma nearest_integer_scaled (z : Z) (m : positive) (e p : Z) :
  e < 0 ->
  Exact.nearest_integer
    (Qmult (Qmake z (Z.to_pos (2 ^ (- e)))) (inject_Z p)) =
  (2 * z * p + 2 ^ (- e)) / 2 ^ (1 - e).
Proof.
  intros He. unfold Exact.nearest_integer, Qfloor, Qplus, Qmult, inject_Z.
  cbn [Qnum Qden].
  assert (Hp : 0 < 2 ^ (- e)) by (apply Z.pow_pos_nonneg; lia).
  rewrite !Pos2Z.inj_mul, Z2Pos.id by assumption.
  replace (1 - e) with (Z.succ (- e)) by lia. rewrite Z.pow_succ_r by lia.
  f_equal; lia.
Qed.

Lemma nearest_integer_value s m e :
  e < 0 ->
  Exact.nearest_integer (Exact.value s m e) =
  (2 * cond_Zopp s (Zpos m) + 2 ^ (- e)) / 2 ^ (1 - e).
Proof.
  intros He. unfold Exact.value, Exact.magnitude.
  replace (0 <=? e) with false by (symmetry; apply Z.leb_gt; lia).
  unfold Exact.nearest_integer, Qfloor, Qplus, Qopp. cbn [Qnum Qden].
  assert (Hp : 0 < 2 ^ (- e)) by (apply Z.pow_pos_nonneg; lia).
  replace (1 - e) with (Z.succ (- e)) by lia. rewrite Z.pow_succ_r by lia.
  destruct s; cbn [Qnum Qden cond_Zopp];
    rewrite !Pos2Z.inj_mul, Z2Pos.id by assumption; f_equal; lia.
Qed.

Lemma nearest_integer_magnitude m e p :
  Exact.nearest_integer (Qmult (Exact.magnitude m e) (inject_Z p)) =
  if 0 <=? e then Zpos m * 2 ^ e * p
  else (2 * Zpos m * p + 2 ^ (- e)) / 2 ^ (1 - e).
Proof.
  unfold Exact.magnitude. destruct (0 <=? e) eqn:He.
  - unfold Exact.nearest_integer, Qfloor, Qplus, Qmult, inject_Z. cbn [Qnum Qden].
    change (Zpos (1 * 1 * 2)) with 2. change (Zpos (1 * 1)) with 1.
    set (K := Zpos m * 2 ^ e * p).
    replace (K * 2 + 1 * 1) with (2 * K + 1) by lia. apply half_up_odd.
  - apply Z.leb_gt in He. apply (nearest_integer_scaled (Zpos m) m e p He).
Qed.

Local Open Scope float_scope.

(** A finite number has magnitude [2^52] or more exactly when its
    exponent is not negative. *)
Lemma integer_magnitude x s m e :
  Prim2SF x = S754_finite s m e ->
  (4503599627370496 <=? abs x) = (0 <=? e)%Z.
Proof.
  intros H. pose proof (Prim2SF_valid x) as V. rewrite H in V.
  cbn [valid_binary] in V. destruct (bounded_facts _ _ V) as (_ & _ & Hm).
  rewrite leb_spec, abs_spec, H.
  change (Prim2SF 4503599627370496) with (S754_finite false 4503599627370496 0).
  unfold SFleb, SFabs, SFcompare.
  destruct (Z.compare_spec 0 e) as [<-|Hlt|Hgt].
  - change (PosDef.Pos.compare_cont Eq 4503599627370496 m)
      with (Z.compare 4503599627370496 (Zpos m)).
    specialize (Hm ltac:(lia)). change (2 ^ 52)%Z with 4503599627370496%Z in Hm.
    destruct (Z.compare_spec 4503599627370496 (Zpos m)); try reflexivity. lia.
  - symmetry. apply Z.leb_le. lia.
  - symmetry. apply Z.leb_gt. lia.
Qed.

Lemma Math_round_exact x : JS.Math_round x = Exact.round x.
Proof.
  unfold JS.Math_round, Exact.round.
  destruct (Prim2SF x) as [s|s| |s m e] eqn:E; try reflexivity.
  rewrite (integer_magnitude x s m e E).
  destruct (0 <=? e)%Z eqn:He; [reflexivity|].
  apply Z.leb_gt in He. cbv zeta. rewrite (nearest_integer_value s m e He).
  reflexivity.
Qed.

Lemma toFixed_Number_exact digits x :
  JS.toFixed_Number digits x = Exact.round_decimals digits x.
Proof.
  unfold JS.toFixed_Number, Exact.round_decimals.
  destruct (Prim2SF x) as [s|s| |s m e]; try reflexivity.
  destruct (1e21 <=? abs x); [reflexivity|].
  cbv zeta. rewrite nearest_integer_magnitude. reflexivity.
Qed.

Lemma nan_unique x : is_nan x = true -> x = nan.
Proof.
  rewrite is_nan_spec. intros H. apply Prim2SF_inj.
  destruct (Prim2SF x); try discriminate H. reflexivity.
Qed.

Lemma Math_max_zero_exact x : JS.Math_max 0 x = Exact.max0 x.
Proof.
  unfold JS.Math_max, Exact.max0. change (is_nan 0) with false. cbn [orb].
  change (get_sign 0) with false. cbv iota.
  assert (H0 : is_nan 0 = false) by reflexivity.
  pose proof (float_cmp_total x 0) as Hx. pose proof (float_cmp_total 0 x) as Hx'.
  destruct (is_nan x) eqn:En.
  - rewrite (nan_unique x En). reflexivity.
  - destruct (0 <? x) eqn:E1, (x <? 0) eqn:E2, (x <=? 0) eqn:E3;
      try reflexivity; exfalso; rank_cases.
Qed.

End ExactAgreement.

(* ================================================================== *)
(** * Detection: the structure of a run *)
(* ================================================================== *)

Module DetectionFacts.

Import JS Schemas SearchConsole Index Spec.
Open Scope string_scope.
Open Scope list_scope.
Open Scope float_scope.

Lemma Array_map_Forall2 {A B} (f : A -> result B) (l : list A) (bs : list B) :
  Array_map f l = Ok bs -> Forall2 (fun a b => f a = Ok b) l bs.
Proof.
  revert bs. induction l as [|a l IH]; cbn [Array_map]; intros bs H.
  - injection H as <-. constructor.
  - destruct (f a) as [b|e] eqn:Ea; [|discriminate H]. cbn [bindR] in H.
    destruct (Array_map f l) as [bs'|e]; [|discriminate H]. cbn [bindR] in H.
    injection H as <-. constructor; auto.
Qed.

Lemma Array_map_Throw {A B} (f : A -> result B) (l : list A) (e : exn) :
  Array_map f l = Throw e -> exists a, In a l /\ f a = Throw e.
Proof.
  induction l as [|a l IH]; cbn [Array_map]; intros H; [discriminate H|].
  destruct (f a) as [b|e'] eqn:Ea; cbn [bindR] in H.
  - destruct (Array_map f l) as [bs|e'] eqn:El; cbn [bindR] in H; [discriminate H|].
    injection H as ->. destruct (IH eq_refl) as (x & Hx & Hf).
    exists x. split; [right; exact Hx|exact Hf].
  - injection H as ->. exists a. split; [left; reflexivity|exact Ea].
Qed.

Lemma Forall2_In_r {A B} (R : A -> B -> Prop) l bs b :
  Forall2 R l bs -> In b bs -> exists a, In a l /\ R a b.
Proof.
  induction 1 as [|a b' l bs Hab _ IH]; intros Hin; [destruct Hin|].
  destruct Hin as [<-|Hin].
  - exists a. split; [left; reflexivity|exact Hab].
  - destruct (IH Hin) as (x & Hx & Hr). exists x. split; [right; exact Hx|exact Hr].
Qed.

Lemma Forall2_In_l {A B} (R : A -> B -> Prop) l bs a :
  Forall2 R l bs -> In a l -> exists b, In b bs /\ R a b.
Proof.
  induction 1 as [|a' b l bs Hab _ IH]; intros Hin; [destruct Hin|].
  destruct Hin as [<-|Hin].
  - exists b. split; [left; reflexivity|exact Hab].
  - destruct (IH Hin) as (x & Hx & Hr). exists x. split; [right; exact Hx|exact Hr].
Qed.

Lemma Forall2_weaken {A B} (R S : A -> B -> Prop) l bs :
  (forall a b, In a l -> R a b -> S a b) -> Forall2 R l bs -> Forall2 S l bs.
Proof.
  intros H HF. induction HF as [|a b l bs Hab HF IH]; constructor.
  - apply H; [left; reflexivity|exact Hab].
  - apply IH. intros a' b' Hin. apply H. right. exact Hin.
Qed.

(** The thresholds the code destructures are the thresholds in effect. *)
Lemma destructure_effective thresholds :
  destructure thresholds =
  {| th_minImpressions := effective thresholds minImpressions 50;
     th_maxCtr := effective thresholds maxCtr 2.0;
     th_positionRangeMin := effective thresholds positionRangeMin 4;
     th_positionRangeMax := effective thresholds positionRangeMax 10;
     th_targetCtr := effective thresholds targetCtr 5.0;
     th_estimatedClickValue := effective thresholds estimatedClickValue 1.0;
     th_conversionRate := effective thresholds conversionRate 0.03 |}.
Proof. destruct thresholds; reflexivity. Qed.

(** The callback of [.filter] decides the inclusion rule. *)
Lemma filter_row_included thresholds row :
  filter_row (destructure thresholds) row = included thresholds row.
Proof. rewrite destructure_effective. reflexivity. Qed.

Lemma filter_included thresholds rows :
  List.filter (filter_row (destructure thresholds)) rows =
  List.filter (included thresholds) rows.
Proof.
  apply filter_ext. intros row. apply filter_row_included.
Qed.

Section Engine.
Context {engine : Engine}.

(** Detection succeeds exactly when the mapping does, and then returns
    the sorted mapping. *)
Lemma detect_Ok this rows thresholds out :
  detectQuickWins this rows thresholds = Ok out ->
  exists mapped,
    Array_map (map_row this (destructure thresholds))
      (List.filter (filter_row (destructure thresholds)) rows) = Ok mapped /\
    out = Array_sort by_additionalClicks mapped.
Proof.
  unfold detectQuickWins. cbv zeta.
  destruct (Array_map _ _) as [mapped|e]; [|discriminate].
  cbn [bindR]. intros H. injection H as <-. eauto.
Qed.

Lemma detect_origin this rows thresholds out :
  detectQuickWins this rows thresholds = Ok out ->
  forall q, In q out ->
    exists row, In row rows /\ filter_row (destructure thresholds) row = true /\
                map_row this (destructure thresholds) row = Ok q.
Proof.
  intros H q Hin. destruct (detect_Ok _ _ _ _ H) as (mapped & Hm & ->).
  apply (Permutation_in _ (Permutation_sym (Array_sort_perm by_additionalClicks mapped)))
    in Hin.
  destruct (Forall2_In_r _ _ _ _ (Array_map_Forall2 _ _ _ Hm) Hin) as (row & Hrow & Hq).
  apply filter_In in Hrow. exists row. tauto.
Qed.

Lemma detect_Throw_row this rows thresholds e :
  detectQuickWins this rows thresholds = Throw e ->
  exists row, In row rows /\ filter_row (destructure thresholds) row = true /\
              position row = None /\
              e = Error_ "Cannot read properties of undefined (reading 'toFixed')".
Proof.
  intros H. unfold detectQuickWins in H. cbv zeta in H.
  destruct (Array_map _ _) as [mapped|e'] eqn:Hm; [discriminate H|].
  cbn [bindR] in H. injection H as ->.
  destruct (Array_map_Throw _ _ _ Hm) as (row & Hin & Hf).
  apply filter_In in Hin. exists row.
  unfold map_row in Hf. cbv zeta in Hf.
  destruct (position row); [discriminate Hf|]. injection Hf as <-. tauto.
Qed.

(** A run of detection, in the terms of the inclusion rule: either it
    returns a rearrangement of the opportunities of the included rows,
    taken in their order, or it throws for an included row without
    position. *)
Lemma detect_run this rows thresholds :
  match detectQuickWins this rows thresholds with
  | Ok out =>
      exists mapped,
        Forall2 (fun row q => map_row this (destructure thresholds) row = Ok q)
                (List.filter (included thresholds) rows) mapped /\
        out = Array_sort by_additionalClicks mapped
  | Throw e =>
      e = no_position /\
      exists row, In row rows /\ included thresholds row = true /\ position row = None
  end.
Proof.
  destruct (detectQuickWins this rows thresholds) as [out|e] eqn:E.
  - destruct (detect_Ok _ _ _ _ E) as (mapped & Hm & ->).
    exists mapped. split; [|reflexivity].
    rewrite <- filter_included. apply Array_map_Forall2, Hm.
  - destruct (detect_Throw_row _ _ _ _ E) as (row & Hin & Hf & Hp & ->).
    split; [reflexivity|]. exists row. rewrite <- filter_row_included. tauto.
Qed.

(** A row outside the rule has no part in the run. *)
Lemma detect_skips this thresholds before row after :
  included thresholds row = false ->
  detectQuickWins this (before ++ row :: after) thresholds =
  detectQuickWins this (before ++ after) thresholds.
Proof.
  intros H. unfold detectQuickWins. cbv zeta.
  rewrite !filter_app. cbn [List.filter].
  rewrite filter_row_included, H. reflexivity.
Qed.

End Engine.

End DetectionFacts.

(* ================================================================== *)
(** * The query builder *)
(* ================================================================== *)

Module BuilderProperties.

Import JS Schemas SearchConsole Index Spec.
Open Scope string_scope.

Lemma truthy_cases (x : option string) :
  (truthy x = false /\ (x = None \/ x = Some "")) \/
  (truthy x = true /\ exists c s, x = Some (String c s)).
Proof.
  destruct x as [[|c s]|]; simpl; eauto 6.
Qed.

(** C6. The query builder returns no filter group at all (and the request
    it builds has no [dimensionFilterGroups]) when none of the page, query,
    country and device filters is present.  Otherwise it returns exactly
    one group, of type "and"; its clauses are those of the present filters
    in the order page, query, country, device; each clause carries the
    value of its filter; country and device clauses have the operator
    "equals", page and query clauses the shared [filterOperator]. *)
Theorem buildFilterGroups_shape (args : SearchAnalytics) :
  (List.existsb (present args) filter_order = false ->
     buildFilterGroups args = None /\
     Request.dimensionFilterGroups (buildSearchAnalyticsRequest args) = None) /\
  (List.existsb (present args) filter_order = true ->
     exists clauses,
       buildFilterGroups args = Some [ {| groupType := "and"; filters := clauses |} ] /\
       Request.dimensionFilterGroups (buildSearchAnalyticsRequest args) =
         Some [ {| groupType := "and"; filters := clauses |} ] /\
       List.map dimension clauses = List.filter (present args) filter_order /\
       Forall (fun c =>
                 operator c = expected_operator args (dimension c) /\
                 simple_filter args (dimension c) = Some (expression c)) clauses).
Proof.
  unfold buildSearchAnalyticsRequest, buildFilterGroups, present, filter_order.
  cbn [Request.dimensionFilterGroups List.existsb List.filter simple_filter String.eqb
       Ascii.eqb Bool.eqb].
  cbv beta iota delta [simple_filter]. simpl String.eqb.
  cbv iota.
  destruct (truthy_cases (SearchAnalytics.pageFilter args)) as [[Hp _]|[Hp (cp & sp & Ep)]];
  destruct (truthy_cases (SearchAnalytics.queryFilter args)) as [[Hq _]|[Hq (cq & sq & Eq)]];
  destruct (truthy_cases (SearchAnalytics.countryFilter args)) as [[Hc _]|[Hc (cc & sc & Ec)]];
  destruct (truthy_cases (SearchAnalytics.deviceFilter args)) as [[Hd _]|[Hd (cd & sd & Ed)]];
  rewrite Hp, Hq, Hc, Hd; cbn [push_if orb app List.length Nat.ltb Nat.leb];
  (split; [intros H; try discriminate H; auto|intros H; try discriminate H]);
  eexists; (split; [reflexivity|]); (split; [reflexivity|]);
  (split; [reflexivity|]);
  repeat constructor; cbn [dimension expression operator]; unfold expected_operator;
  simpl String.eqb; cbn [orb];
  rewrite ?Ep, ?Eq, ?Ec, ?Ed; reflexivity.
Qed.

(** The witness: a page and a device filter with the operator "contains". *)
Lemma buildFilterGroups_shape_witness :
  let args :=
    {| SearchAnalytics.siteUrl := "sc-domain:example.com";
       SearchAnalytics.startDate := "2024-01-01";
       SearchAnalytics.endDate := "2024-01-31";
       SearchAnalytics.dimensions := Some "query, page";
       SearchAnalytics.type := None;
       SearchAnalytics.aggregationType := None;
       SearchAnalytics.rowLimit := 1000%float;
       SearchAnalytics.startRow := 0%float;
       SearchAnalytics.dataState := "final";
       SearchAnalytics.pageFilter := Some "/blog";
       SearchAnalytics.queryFilter := None;
       SearchAnalytics.countryFilter := None;
       SearchAnalytics.deviceFilter := Some "MOBILE";
       SearchAnalytics.filterOperator := "contains" |} in
  List.existsb (present args) filter_order = true /\
  exists clauses,
    buildFilterGroups args = Some [ {| groupType := "and"; filters := clauses |} ] /\
    List.map dimension clauses = ["page"; "device"] /\
    List.map operator clauses = ["contains"; "equals"].
Proof.
  intros args. split; [reflexivity|].
  destruct (proj2 (buildFilterGroups_shape args) eq_refl) as (clauses & H & _ & _).
  exists clauses. split; [exact H|].
  vm_compute in H. injection H as <-. split; reflexivity.
Defined.

End BuilderProperties.

(* ================================================================== *)
(** * The service: permission fallback and the enhanced query *)
(* ================================================================== *)

Module ServiceProperties.

Import JS Schemas SearchConsole Index Spec.
Open Scope string_scope.
Open Scope list_scope.

Section Generic.
Context {engine : Engine}.
Context {World : Type}.
Variable auth_getClient : World -> result AuthClient * World.
Variable searchanalytics_query :
  AuthClient -> string -> SearchAnalyticsQueryRequest -> World ->
  result Response.t * World.
Variable URL_hostname : string -> option string.


Lemma query_trace webmasters siteUrl body (s : State World) :
  trace (snd (query searchanalytics_query webmasters siteUrl body s)) =
  trace s ++ [Query siteUrl body].
Proof.
  unfold query. destruct (searchanalytics_query _ _ _ _). reflexivity.
Qed.

Lemma getAuthClient_trace (s : State World) :
  trace (snd (getAuthClient auth_getClient s)) = trace s.
Proof.
  unfold getAuthClient. destruct (cachedAuthClient (this s)); [reflexivity|].
  destruct (auth_getClient (world s)) as [[c|e] w]; reflexivity.
Qed.


(** The enhanced query changes the state only through [searchAnalytics]. *)
Lemma enhancedSearchAnalytics_state siteUrl requestBody options (s : State World) :
  snd (enhancedSearchAnalytics auth_getClient searchanalytics_query URL_hostname
         siteUrl (Some requestBody) options s) =
  snd (searchAnalytics auth_getClient searchanalytics_query URL_hostname
         siteUrl (Some (enhancedRequestBody requestBody options)) s).
Proof.
  unfold enhancedSearchAnalytics, bind at 1.
  destruct (searchAnalytics _ _ _ _ _ s) as [[result|e] s1]; [|reflexivity].
  destruct (_ && _); [|reflexivity].
  destruct (detectQuickWins _ _ _); reflexivity.
Qed.

(** The metadata flag reports that a pattern was supplied. *)
Lemma regexFilterApplied_reports_supplied siteUrl requestBody options
    (s s' : State World) resp :
  enhancedSearchAnalytics auth_getClient searchanalytics_query URL_hostname
    siteUrl requestBody options s = (Ok resp, s') ->
  exists md,
    EnhancedSearchAnalyticsResponse.metadata resp = Some md /\
    Metadata.regexFilterApplied md = truthy (regexFilter options).
Proof.
  unfold enhancedSearchAnalytics. destruct requestBody as [rb|]; [|discriminate].
  unfold bind at 1.
  destruct (searchAnalytics _ _ _ _ _ s) as [[result|e] s1]; [|discriminate].
  destruct (_ && _).
  - destruct (detectQuickWins _ _ _); [|discriminate].
    intros H. injection H as <- _. eexists. split; reflexivity.
  - unfold ret. intros H. injection H as <- _. eexists. split; reflexivity.
Qed.


(** On a permission error of the upstream, [searchAnalytics] repeats the
    query once, with the same body, under the normalized site URL. *)
Lemma searchAnalytics_fallback_request siteUrl body (s : State World)
    (client : AuthClient) (err : exn) (w1 : World) :
  cachedAuthClient (this s) = Some client ->
  searchanalytics_query client siteUrl body (world s) = (Throw err, w1) ->
  permission_related err = true ->
  searchAnalytics auth_getClient searchanalytics_query URL_hostname siteUrl body s =
  (fst (searchanalytics_query client (normalizeUrl URL_hostname siteUrl) body w1),
   {| this := this s;
      world := snd (searchanalytics_query client (normalizeUrl URL_hostname siteUrl) body w1);
      trace := trace s ++
               [ Query siteUrl body;
                 ConsoleError "[GSC] Permission error in searchAnalytics, trying normalized URL...";
                 Query (normalizeUrl URL_hostname siteUrl) body ] |}).
Proof.
  intros Hc Hq Hp. unfold permission_related in Hp.
  unfold searchAnalytics, bind at 1, getWebmasters, bind at 1, getAuthClient, ret.
  rewrite Hc. unfold withPermissionFallback, query at 1. rewrite Hq.
  cbv beta iota zeta. rewrite Hp.
  unfold bind, console_error, emit, query. cbn [world this trace].
  destruct (searchanalytics_query client _ body w1) as [r w2]. cbn [fst snd].
  rewrite <- !app_assoc. reflexivity.
Qed.

(** The opportunities of a successful enhanced query are determined by
    the rows it returns and by the options. *)
Lemma enhanced_quickWins_determined siteUrl requestBody options
    (s s' : State World) resp :
  enhancedSearchAnalytics auth_getClient searchanalytics_query URL_hostname
    siteUrl requestBody options s = (Ok resp, s') ->
  exists rows,
    EnhancedSearchAnalyticsResponse.rows resp = Some rows /\
    EnhancedSearchAnalyticsResponse.quickWins resp =
      if truthy_bool (enableQuickWins options) && (0 <? List.length rows)%nat
      then match detectQuickWins service rows (quickWinsThresholds options) with
           | Ok quickWins => Some quickWins
           | Throw _ => None
           end
      else None.
Proof.
  unfold enhancedSearchAnalytics. destruct requestBody as [rb|]; [|discriminate].
  unfold bind at 1.
  destruct (searchAnalytics _ _ _ _ _ s) as [[result|e] s1]; [|discriminate].
  destruct (_ && _) eqn:Eq.
  - change (detectQuickWins (this s1)) with (detectQuickWins service).
    destruct (detectQuickWins service _ _) eqn:Ed; [|discriminate].
    intros H. injection H as <- _. eexists. split; [reflexivity|].
    cbn [EnhancedSearchAnalyticsResponse.quickWins]. rewrite Eq, Ed. reflexivity.
  - unfold ret. intros H. injection H as <- _. eexists. split; [reflexivity|].
    cbn [EnhancedSearchAnalyticsResponse.quickWins]. rewrite Eq. reflexivity.
Qed.

End Generic.

#[local] Existing Instance idle_engine.



(** C1. With the pattern "(medical|health)" and the dimension list
    ["page"] the query goes upstream without any pattern clause, and the
    metadata of the result nevertheless has [regexFilterApplied] set. *)
Theorem regexFilterApplied_set_for_ignored_pattern :
  exists resp md s',
    enhancedSearchAnalytics idle_auth idle_query no_URL "sc-domain:example.com"
      (Some page_request) pattern_options fresh_state = (Ok resp, s') /\
    trace s' = [Query "sc-domain:example.com" (Some page_request)] /\
    Request.dimensionFilterGroups page_request = None /\
    EnhancedSearchAnalyticsResponse.metadata resp = Some md /\
    Metadata.regexFilterApplied md = true.
Proof.
  do 3 eexists. split; [reflexivity|]. repeat split.
Qed.

End ServiceProperties.
(* ================================================================== *)
(** * Quick-wins detection *)
(* ================================================================== *)

Module DetectionProperties.

Import JS Schemas SearchConsole Index Spec DetectionFacts.
Open Scope string_scope.
Open Scope list_scope.
Open Scope float_scope.

Lemma filter_row_iff th row :
  filter_row th row = true <->
  num_ge (nullish (impressions row) 0) (th_minImpressions th) = true /\
  num_le (nullish (ctr row) 0 * 100) (th_maxCtr th) = true /\
  num_ge (nullish (position row) 0) (th_positionRangeMin th) = true /\
  num_le (nullish (position row) 0) (th_positionRangeMax th) = true.
Proof.
  unfold filter_row. cbv zeta. rewrite !andb_true_iff. tauto.
Qed.

Lemma classify_cases ac :
  (classify ac = High <-> num_ge ac 100 = true) /\
  (classify ac = Medium <-> num_ge ac 25 = true /\ num_lt ac 100 = true) /\
  (classify ac = Low <-> num_ge ac 100 = false /\ num_ge ac 25 = false).
Proof.
  unfold classify, num_ge, num_lt.
  assert (Hexcl : (100 <=? ac) = true -> (ac <? 100) = true -> False).
  { intros. pose proof (float_cmp_total 100 ac). pose proof (float_cmp_total ac 100).
    rank_cases. }
  assert (Hmed : (100 <=? ac) = false -> (25 <=? ac) = true -> (ac <? 100) = true).
  { intros H100 H25. apply leb_false_ltb; [reflexivity| |assumption].
    apply (leb_not_nan _ _ H25). }
  destruct (100 <=? ac) eqn:E100, (25 <=? ac) eqn:E25;
    (split; [|split]); split; try discriminate; try reflexivity;
    try (intros [? ?]; discriminate); try (intros [_ ?]; exfalso; auto; fail);
    auto.
Qed.

Lemma map_row_fields this th row q :
  map_row this th row = Ok q ->
  QuickWin.query q = key_or_NA (keys row) 0 /\
  QuickWin.page q = key_or_NA (keys row) 1 /\
  QuickWin.potentialClicks q =
    Math_round (ToNumber (impressions row) * th_targetCtr th / 100) /\
  QuickWin.additionalClicks q =
    Math_max 0 (QuickWin.potentialClicks q - nullish (clicks row) 0) /\
  QuickWin.estimatedValue q =
    toFixed_Number 2 (QuickWin.additionalClicks q * th_estimatedClickValue th *
                      (1 + th_conversionRate th)) /\
  QuickWin.opportunity q = classify (QuickWin.additionalClicks q).
Proof.
  unfold map_row. cbv zeta. destruct (position row); [|discriminate].
  intros H. injection H as <-. cbn. repeat split.
Qed.

(** What the callback of [.map] computes is what the specification
    derives, in exact arithmetic, under the thresholds in effect. *)
Lemma map_row_derived this thresholds row q :
  map_row this (destructure thresholds) row = Ok q -> derived thresholds row q.
Proof.
  intros Hq. destruct (map_row_fields _ _ _ _ Hq) as (_ & _ & Hp & Ha & He & Ho).
  rewrite destructure_effective in Hp, He. cbn [th_targetCtr th_estimatedClickValue
    th_conversionRate] in Hp, He.
  rewrite Math_round_exact in Hp. rewrite Math_max_zero_exact in Ha.
  rewrite toFixed_Number_exact in He.
  unfold derived. cbv zeta.
  split; [exact Hp|]. split; [exact Ha|]. split; [exact He|].
  rewrite Ho. apply classify_cases.
Qed.


Lemma inverted_range_excludes th row :
  num_gt (th_positionRangeMin th) (th_positionRangeMax th) = true ->
  filter_row th row = false.
Proof.
  unfold num_gt. intros Hinv.
  destruct (filter_row th row) eqn:E; [|reflexivity].
  apply filter_row_iff in E. destruct E as (_ & _ & Hlo & Hhi).
  unfold num_ge, num_le in *.
  rewrite (between_not_inverted _ _ _ Hlo Hhi) in Hinv. discriminate.
Qed.

Lemma included_has_position th row :
  (1 <=? th_positionRangeMin th) = true -> filter_row th row = true ->
  exists p, position row = Some p.
Proof.
  intros Hmin Hf. apply filter_row_iff in Hf. destruct Hf as (_ & _ & Hlo & _).
  destruct (position row) as [p|]; [eauto|].
  unfold num_ge in Hlo. cbn [nullish] in Hlo.
  pose proof (leb_trans _ _ _ Hmin Hlo) as H. discriminate H.
Qed.

Lemma included_has_impressions th row :
  (1 <=? th_minImpressions th) = true -> filter_row th row = true ->
  exists i, impressions row = Some i.
Proof.
  intros Hmin Hf. apply filter_row_iff in Hf. destruct Hf as (Hlo & _).
  destruct (impressions row) as [i|]; [eauto|].
  unfold num_ge in Hlo. cbn [nullish] in Hlo.
  pose proof (leb_trans _ _ _ Hmin Hlo) as H. discriminate H.
Qed.


Lemma validated_facts th :
  validated th = true ->
  (1 <=? th_minImpressions th) = true /\
  (1 <=? th_positionRangeMin th) = true /\
  (0 <=? th_targetCtr th) = true /\ (th_targetCtr th <=? 100) = true.
Proof.
  unfold validated. rewrite !andb_true_iff. tauto.
Qed.

Lemma bounded_is_finite lo hi x :
  is_finite lo = true -> is_finite hi = true ->
  (lo <=? x) = true -> (x <=? hi) = true -> is_finite x = true.
Proof.
  rewrite !is_finite_spec, !leb_spec. unfold SFleb.
  destruct (Prim2SF lo) as [sl|sl| |sl ml el]; try discriminate;
  destruct (Prim2SF hi) as [sh|sh| |sh mh eh]; try discriminate;
  destruct (Prim2SF x) as [s|s| |s m e]; try reflexivity;
  try destruct s; try destruct sl; try destruct sh; simpl; intros; discriminate.
Qed.


Lemma additionalClicks_not_nan this th row q :
  validated th = true -> finite_row row = true ->
  filter_row th row = true -> map_row this th row = Ok q ->
  is_nan (QuickWin.additionalClicks q) = false.
Proof.
  intros Hv Hfin Hf Hq.
  destruct (validated_facts th Hv) as (Hmi & _ & Ht0 & Ht100).
  destruct (included_has_impressions th row Hmi Hf) as [i Hi].
  destruct (map_row_fields _ _ _ _ Hq) as (_ & _ & Hp & Ha & _).
  unfold finite_row in Hfin. rewrite !andb_true_iff in Hfin.
  destruct Hfin as (((Hc & Himp) & _) & _).
  rewrite Hi in Himp, Hp. cbn [finite_field ToNumber] in Himp, Hp.
  assert (Ht : is_finite (th_targetCtr th) = true)
    by (apply (bounded_is_finite 0 100); auto).
  rewrite Ha, Hp.
  apply Math_max_not_nan; [reflexivity|].
  apply sub_not_nan.
  - apply Math_round_not_nan.
    eapply div_not_nan; [apply mul_not_nan; assumption|].
    vm_compute. reflexivity.
  - destruct (clicks row); [exact Hc|reflexivity].
Qed.

Section Engine.
Context {engine : Engine}.

(** C2. Detection computes an opportunity for exactly the rows that
    satisfy the inclusion rule under the thresholds in effect:
    impressions (0 if missing) at least [minImpressions],
    click-through-rate (0 if missing) times 100 at most [maxCtr],
    position (0 if missing) between [positionRangeMin] and
    [positionRangeMax], both included.  When it returns, its list is a
    rearrangement of the opportunities of those rows, one for each, taken
    in their order; when it throws, it does so for a row that satisfies
    the rule.  A row that does not satisfy the rule has no influence on
    the outcome, wherever it stands in the input.  With [minImpressions]
    at its default 50, a row whose impressions are zero or missing does
    not satisfy the rule, whatever its other fields. *)
Theorem detection_inclusion_rule
    (this : SearchConsoleService) (thresholds : option QuickWinsThresholds)
    (rows : list SearchAnalyticsRow) :
  (match detectQuickWins this rows thresholds with
   | Ok out =>
       exists computed,
         Forall2 (fun row q => map_row this (destructure thresholds) row = Ok q)
                 (List.filter (included thresholds) rows) computed /\
         Permutation computed out
   | Throw _ =>
       exists row,
         In row rows /\ included thresholds row = true /\ position row = None
   end) /\
  (forall before row after,
     included thresholds row = false ->
     detectQuickWins this (before ++ row :: after) thresholds =
     detectQuickWins this (before ++ after) thresholds) /\
  (forall row,
     effective thresholds minImpressions 50 = 50 ->
     (match impressions row with Some v => v | None => 0 end =? 0) = true ->
     included thresholds row = false).
Proof.
  split; [|split].
  - pose proof (detect_run this rows thresholds) as Hrun.
    destruct (detectQuickWins this rows thresholds) as [out|e].
    + destruct Hrun as (computed & HF & ->). exists computed.
      split; [exact HF|apply Array_sort_perm].
    + tauto.
  - intros before row after. apply detect_skips.
  - intros row Hmin Hz. unfold included. cbv zeta. unfold num_ge at 1.
    rewrite Hmin, (eqb_leb_compat 50 _ 0 Hz). reflexivity.
Qed.

(** C3. Every opportunity detection returns is derived from an included
    row by the formulas of the specification, evaluated in binary64
    arithmetic with the roundings taken exactly: [potentialClicks] is
    [impressions * targetCtr / 100] rounded to the nearest integer,
    [additionalClicks] is the larger of 0 and [potentialClicks - clicks],
    [estimatedValue] is
    [additionalClicks * estimatedClickValue * (1 + conversionRate)]
    rounded to two decimals, and the tier is High exactly when
    [additionalClicks >= 100], Medium exactly when
    [25 <= additionalClicks < 100], and Low otherwise.  The list is a
    rearrangement of the opportunities so derived from the included rows,
    one for each.  The row
    {impressions: 1250, clicks: 15, ctr: 0.012, position: 6.2} under the
    default thresholds gives 63, 48, Medium and 49.44. *)
Theorem opportunity_metrics :
  (forall this thresholds rows out,
     detectQuickWins this rows thresholds = Ok out ->
     exists computed,
       Forall2 (derived thresholds) (List.filter (included thresholds) rows) computed /\
       Permutation computed out) /\
  (exists q,
     detectQuickWins service [example_row] None = Ok [q] /\
     QuickWin.potentialClicks q = 63 /\
     QuickWin.additionalClicks q = 48 /\
     QuickWin.opportunity q = Medium /\
     QuickWin.estimatedValue q = 49.44).
Proof.
  split.
  - intros this thresholds rows out E.
    pose proof (detect_run this rows thresholds) as Hrun. rewrite E in Hrun.
    destruct Hrun as (computed & HF & ->). exists computed.
    split; [|apply Array_sort_perm].
    eapply Forall2_weaken; [|exact HF]. cbv beta.
    intros row q _. apply map_row_derived.
  - eexists. split; [vm_compute; reflexivity|]. repeat split.
Qed.

(** C7. When [positionRangeMin > positionRangeMax], detection returns the
    empty list, without an exception, for every row set. *)
Theorem inverted_range_yields_nothing
    (this : SearchConsoleService) (thresholds : option QuickWinsThresholds)
    (rows : list SearchAnalyticsRow) :
  num_gt (th_positionRangeMin (destructure thresholds))
         (th_positionRangeMax (destructure thresholds)) = true ->
  detectQuickWins this rows thresholds = Ok [].
Proof.
  intros Hinv. unfold detectQuickWins. cbv zeta.
  replace (List.filter (filter_row (destructure thresholds)) rows) with (@nil SearchAnalyticsRow);
    [reflexivity|].
  symmetry. induction rows as [|r rows IH]; [reflexivity|].
  cbn [List.filter]. rewrite (inverted_range_excludes _ r Hinv). exact IH.
Qed.



(** C9. Detection is a function of the row set and the thresholds alone:
    it reads nothing of the service object, so two runs on the same rows
    and thresholds give the same list, whatever happened to the service
    in between.  Accordingly two successful enhanced queries with the same
    options, started in any two states of the service and of the outside
    world, that got the same rows from upstream return the same
    opportunities. *)
Theorem detection_deterministic :
  (forall (this this' : SearchConsoleService)
          (thresholds : option QuickWinsThresholds)
          (rows : list SearchAnalyticsRow),
     detectQuickWins this rows thresholds = detectQuickWins this' rows thresholds) /\
  (forall (World : Type) auth_getClient searchanalytics_query URL_hostname
          siteUrl siteUrl' requestBody requestBody' options
          (s1 s1' s2 s2' : State World) resp1 resp2,
     enhancedSearchAnalytics auth_getClient searchanalytics_query URL_hostname
       siteUrl requestBody options s1 = (Ok resp1, s1') ->
     enhancedSearchAnalytics auth_getClient searchanalytics_query URL_hostname
       siteUrl' requestBody' options s2 = (Ok resp2, s2') ->
     EnhancedSearchAnalyticsResponse.rows resp1 =
       EnhancedSearchAnalyticsResponse.rows resp2 ->
     EnhancedSearchAnalyticsResponse.quickWins resp1 =
       EnhancedSearchAnalyticsResponse.quickWins resp2).
Proof.
  split; [reflexivity|].
  intros World auth q url site site' rb rb' options s1 s1' s2 s2' resp1 resp2 H1 H2 Hrows.
  destruct (ServiceProperties.enhanced_quickWins_determined _ _ _ _ _ _ _ _ _ H1)
    as (rows1 & Hr1 & Hq1).
  destruct (ServiceProperties.enhanced_quickWins_determined _ _ _ _ _ _ _ _ _ H2)
    as (rows2 & Hr2 & Hq2).
  rewrite Hr1, Hr2 in Hrows. injection Hrows as <-.
  rewrite Hq1, Hq2. reflexivity.
Qed.

End Engine.

#[local] Existing Instance idle_engine.

(** The witness of C2: of a row with zero impressions, the row of the
    worked example and the specification's row with 40 impressions, only
    the row of the worked example is included, and detection returns what
    it returns on that row alone. *)
Lemma detection_inclusion_rule_witness :
  let no_impressions := {| keys := None; clicks := Some 3; impressions := Some 0;
                           ctr := Some 0.01; position := Some 5 |} in
  let few_impressions := {| keys := None; clicks := Some 1; impressions := Some 40;
                            ctr := Some 0.01; position := Some 5 |} in
  let rows := [no_impressions; example_row; few_impressions] in
  included None no_impressions = false /\
  included None few_impressions = false /\
  exists out,
    detectQuickWins service rows None = Ok out /\
    List.map QuickWin.impressions out = [Some 1250] /\
    detectQuickWins service [example_row] None = Ok out.
Proof.
  intros no_impressions few_impressions rows.
  destruct (detection_inclusion_rule service None rows) as (Hrun & Hskip & Hzero).
  assert (H0 : included None no_impressions = false)
    by (apply Hzero; reflexivity).
  split; [exact H0|]. split; [reflexivity|].
  destruct (detectQuickWins service rows None) as [out|e] eqn:E; [|discriminate E].
  exists out. split; [reflexivity|]. split.
  - destruct Hrun as (computed & HF & HP).
    vm_compute in E. injection E as <-. reflexivity.
  - pose proof (Hskip [] no_impressions [example_row; few_impressions] H0) as E1.
    pose proof (Hskip [example_row] few_impressions [] eq_refl) as E2.
    cbn [app] in E1, E2. rewrite <- E2, <- E1. exact E.
Defined.

(** The witness of C3: a profile that sets the value per click to 0.333,
    on the row of the worked example and on a row with more clicks than
    the projection; the projection of 62.5 is 63, the negative difference
    is raised to 0, and 16.46352 is rounded to 16.46. *)
Lemma opportunity_metrics_witness :
  let thresholds :=
    Some {| minImpressions := None; maxCtr := None; positionRangeMin := None;
            positionRangeMax := None; targetCtr := None;
            estimatedClickValue := Some 0.333; conversionRate := None |} in
  let busy_row := {| keys := None; clicks := Some 200; impressions := Some 1250;
                     ctr := Some 0.012; position := Some 6.2 |} in
  Exact.round 62.5 = 63 /\ Exact.max0 (63 - 200) = 0 /\
  Exact.round2 (48 * 0.333 * (1 + 0.03)) = 16.46 /\ Exact.round2 0.125 = 0.13 /\
  exists out,
    detectQuickWins service [example_row; busy_row] thresholds = Ok out /\
    Forall (fun q => exists row, derived thresholds row q) out /\
    List.map QuickWin.potentialClicks out = [63; 63] /\
    List.map QuickWin.additionalClicks out = [48; 0] /\
    List.map QuickWin.estimatedValue out = [16.46; 0] /\
    List.map QuickWin.opportunity out = [Medium; Low].
Proof.
  intros thresholds busy_row.
  split; [reflexivity|]. split; [reflexivity|]. split; [reflexivity|].
  split; [reflexivity|].
  destruct (detectQuickWins service [example_row; busy_row] thresholds)
    as [out|e] eqn:E; [|discriminate E].
  exists out. split; [reflexivity|]. split.
  - destruct (proj1 opportunity_metrics service thresholds _ out E)
      as (computed & HF & HP).
    apply Forall_forall. intros q Hq.
    apply (Permutation_in _ (Permutation_sym HP)) in Hq.
    destruct (Forall2_In_r _ _ _ _ HF Hq) as (row & _ & Hd). exists row. exact Hd.
  - vm_compute in E. injection E as <-. repeat split.
Defined.

(** The witness: the range [10, 4] on the row of the worked example. *)
Lemma inverted_range_yields_nothing_witness :
  let thresholds :=
    Some {| minImpressions := None; maxCtr := None;
            positionRangeMin := Some 10; positionRangeMax := Some 4;
            targetCtr := None; estimatedClickValue := None;
            conversionRate := None |} in
  num_gt (th_positionRangeMin (destructure thresholds))
         (th_positionRangeMax (destructure thresholds)) = true /\
  detectQuickWins service [example_row] thresholds = Ok [].
Proof.
  intros thresholds. split; [reflexivity|].
  exact (inverted_range_yields_nothing service thresholds [example_row] eq_refl).
Defined.





(** The witness: the same enhanced query, with detection enabled, from a
    fresh service and from one that has already cached its client and
    logged a message. *)
Lemma detection_deterministic_witness :
  let options := {| regexFilter := None; enableQuickWins := Some true;
                    quickWinsThresholds := None |} in
  let upstream := fun (_ : AuthClient) (_ : string) (_ : SearchAnalyticsQueryRequest)
                      (w : unit) =>
    (Ok {| Response.rows := Some [example_row];
           Response.responseAggregationType := None |}, w) in
  let used_state : State unit :=
    {| this := {| cachedAuthClient := Some (auth_client 0); hasWriteAccess := true |};
       world := tt; trace := [ConsoleError "earlier"%string] |} in
  let run := enhancedSearchAnalytics idle_auth upstream no_URL
               "sc-domain:example.com"%string (Some query_request) options in
  exists resp1 resp2,
    fst (run fresh_state) = Ok resp1 /\ fst (run used_state) = Ok resp2 /\
    EnhancedSearchAnalyticsResponse.quickWins resp1 =
      EnhancedSearchAnalyticsResponse.quickWins resp2.
Proof.
  intros options upstream used_state run.
  destruct (run fresh_state) as [[resp1|e1] s1'] eqn:E1; [|discriminate E1].
  destruct (run used_state) as [[resp2|e2] s2'] eqn:E2; [|discriminate E2].
  exists resp1, resp2. split; [reflexivity|]. split; [reflexivity|].
  apply (proj2 detection_deterministic unit idle_auth upstream no_URL
           _ _ _ _ options _ _ _ _ resp1 resp2 E1 E2).
  vm_compute in E1, E2. injection E1 as <- _. injection E2 as <- _. reflexivity.
Defined.

End DetectionProperties.

(* ================================================================== *)
(** * Further properties: site URLs and error messages *)
(* ================================================================== *)

Module UrlProperties.

Import JS Schemas SearchConsole Index Spec SpecMore.
Open Scope string_scope.

Lemma prefix_app s t : String.prefix s (s ++ t) = true.
Proof.
  induction s as [|c s IH]; [destruct t; reflexivity|]. cbn.
  destruct (ascii_dec c c); [exact IH|congruence].
Qed.

Lemma includes_app pre s suf : includes (pre ++ s ++ suf) s = true.
Proof.
  induction pre as [|c pre IH].
  - cbn [append]. destruct (s ++ suf) eqn:E; cbn [includes]; rewrite <- E, prefix_app;
      reflexivity.
  - cbn [append includes]. rewrite IH. apply orb_true_r.
Qed.

Lemma toLowerCase_app a b : toLowerCase (a ++ b) = toLowerCase a ++ toLowerCase b.
Proof. induction a as [|c a IH]; cbn; [reflexivity|]. rewrite IH. reflexivity. Qed.

Lemma split_char_head sep s :
  exists w ws,
    split_char sep s = w :: ws /\
    includes w (String sep "") = false /\
    String.prefix w s = true.
Proof.
  induction s as [|c s (w & ws & Hs & Hi & Hp)].
  - exists "", []. repeat split.
  - cbn [split_char]. destruct (Ascii.eqb c sep) eqn:E.
    + exists "", (split_char sep s). repeat split.
    + rewrite Hs. exists (String c w), ws. split; [reflexivity|]. split.
      * cbn [includes String.prefix]. rewrite Hi.
        destruct (ascii_dec sep c) as [->|_]; [|reflexivity].
        rewrite Ascii.eqb_refl in E. discriminate.
      * cbn. destruct (ascii_dec c c); [exact Hp|congruence].
Qed.

(** X1. Whatever the URL and whatever [new URL] makes of it, the
    normalized site identifier starts with "sc-domain:", and normalizing
    it again changes nothing. *)
Theorem normalizeUrl_idempotent (URL_hostname : string -> option string) (url : string) :
  startsWith (normalizeUrl URL_hostname url) "sc-domain:" = true /\
  normalizeUrl URL_hostname (normalizeUrl URL_hostname url) = normalizeUrl URL_hostname url.
Proof.
  assert (H : startsWith (normalizeUrl URL_hostname url) "sc-domain:" = true).
  { unfold normalizeUrl. destruct (startsWith url "sc-domain:") eqn:E; [exact E|].
    destruct (URL_hostname url); apply prefix_app. }
  split; [exact H|].
  unfold normalizeUrl at 1. rewrite H. reflexivity.
Qed.

Lemma substring_all s : String.substring 0 (String.length s) s = s.
Proof. induction s as [|c s IH]; cbn; [reflexivity|]. rewrite IH. reflexivity. Qed.

Lemma prefix_split p s :
  String.prefix p s = true ->
  s = p ++ String.substring (String.length p) (String.length s - String.length p) s.
Proof.
  revert s. induction p as [|a p IH]; intros s H.
  - cbn. rewrite Nat.sub_0_r, substring_all. reflexivity.
  - destruct s as [|b s]; [discriminate H|]. cbn in H.
    destruct (ascii_dec a b) as [->|]; [|discriminate H].
    cbn. f_equal. apply IH, H.
Qed.

Lemma strip_scheme_spec url : without_scheme url (strip_scheme url).
Proof.
  unfold without_scheme, strip_scheme.
  destruct (startsWith url "https://") eqn:E1.
  - left. apply (prefix_split "https://" url E1).
  - destruct (startsWith url "http://") eqn:E2.
    + right; left. apply (prefix_split "http://" url E2).
    + right; right. repeat split.
Qed.

(** The first piece of a split: what stands before the first separator. *)
Lemma split_char_first sep s :
  exists w ws rest,
    split_char sep s = w :: ws /\
    includes w (String sep "") = false /\
    s = w ++ rest /\
    (rest = "" \/ startsWith rest (String sep "") = true).
Proof.
  induction s as [|c s (w & ws & rest & Hs & Hi & Hw & Hr)].
  - exists "", [], "". repeat split. left. reflexivity.
  - cbn [split_char]. destruct (Ascii.eqb c sep) eqn:E.
    + exists "", (split_char sep s), (String c s). repeat split.
      right. apply Ascii.eqb_eq in E. subst c. cbn.
      destruct (ascii_dec sep sep); [destruct s; reflexivity|congruence].
    + rewrite Hs. exists (String c w), ws, rest. split; [reflexivity|]. split; [|split].
      * cbn [includes String.prefix]. rewrite Hi.
        destruct (ascii_dec sep c) as [->|_]; [|reflexivity].
        rewrite Ascii.eqb_refl in E. discriminate.
      * cbn. rewrite <- Hw. reflexivity.
      * exact Hr.
Qed.

(** X2. When the URL is not an "sc-domain:" identifier and [new URL]
    rejects it, the normalized identifier is "sc-domain:" followed by the
    part of the URL, without the "http://" or "https://" it starts with,
    that stands before the first "/": that part contains no "/" and what
    follows it is empty or starts with "/". *)
Theorem normalizeUrl_unparsable (URL_hostname : string -> option string) (url : string) :
  startsWith url "sc-domain:" = false ->
  URL_hostname url = None ->
  exists stripped domain rest,
    without_scheme url stripped /\
    stripped = domain ++ rest /\
    includes domain "/" = false /\
    (rest = "" \/ startsWith rest "/" = true) /\
    normalizeUrl URL_hostname url = "sc-domain:" ++ domain.
Proof.
  intros Hs Hu. unfold normalizeUrl. rewrite Hs, Hu.
  destruct (split_char_first "/" (strip_scheme url)) as (w & ws & rest & Hw & Hi & Hd & Hr).
  exists (strip_scheme url), w, rest. rewrite Hw. cbn [List.hd].
  split; [apply strip_scheme_spec|]. repeat split; assumption.
Qed.

(** The witness: two strings [new URL] rejects, one without a scheme and
    one whose port is out of range. *)
Lemma normalizeUrl_unparsable_witness :
  normalizeUrl no_URL "example.com/blog/post" = "sc-domain:example.com" /\
  normalizeUrl no_URL "https://example.com:99999/blog" = "sc-domain:example.com:99999".
Proof.
  split.
  - destruct (normalizeUrl_unparsable no_URL "example.com/blog/post" eq_refl eq_refl)
      as (stripped & domain & rest & _ & _ & _ & _ & H).
    rewrite H. vm_compute in H. injection H as <-. reflexivity.
  - destruct (normalizeUrl_unparsable no_URL "https://example.com:99999/blog"
                eq_refl eq_refl)
      as (stripped & domain & rest & _ & _ & _ & _ & H).
    rewrite H. vm_compute in H. injection H as <-. reflexivity.
Defined.

(** X3. An [Error] whose message contains "permission" in any mix of
    upper and lower case, or "403", anywhere, is treated as a permission
    error. *)
Theorem permission_detected_in_any_case (pre word suf : string) :
  toLowerCase word = "permission" \/ toLowerCase word = "403" ->
  permission_related (Error_ (pre ++ word ++ suf)) = true.
Proof.
  intros H. unfold permission_related, errorMessage_of.
  rewrite !toLowerCase_app.
  destruct H as [-> | ->]; rewrite includes_app; [reflexivity|apply orb_true_r].
Qed.

Lemma permission_detected_in_any_case_witness :
  toLowerCase "PerMission" = "permission" /\
  permission_related (Error_ "Request failed: PerMission denied for user") = true.
Proof.
  split; [reflexivity|].
  exact (permission_detected_in_any_case "Request failed: " "PerMission" " denied for user"
           (or_introl eq_refl)).
Defined.

End UrlProperties.

(* ================================================================== *)
(** * Further properties: the service *)
(* ================================================================== *)

Module ServiceMore.

Import JS Schemas SearchConsole SearchConsoleApi Index Spec SpecMore.
Open Scope string_scope.
Open Scope list_scope.

Section Generic.
Context {engine : Engine}.
Context {World : Type}.
Variable auth_getClient : World -> result AuthClient * World.
Variable searchanalytics_query :
  AuthClient -> string -> SearchAnalyticsQueryRequest -> World ->
  result Response.t * World.
Variable URL_hostname : string -> option string.

(** X4. The client handle is obtained once: after a call of
    [getAuthClient] that succeeded, every later call returns the same
    client without consulting the authentication back end and without
    changing the state.  A failure is not cached: the service object is
    left as it was, so the next call asks the back end again. *)
Theorem getAuthClient_caches (s s1 : State World) (r : result AuthClient) :
  getAuthClient auth_getClient s = (r, s1) ->
  match r with
  | Ok client =>
      forall other_backend, getAuthClient other_backend s1 = (Ok client, s1)
  | Throw _ =>
      this s1 = this s /\ cachedAuthClient (this s) = None
  end.
Proof.
  unfold getAuthClient. destruct (cachedAuthClient (this s)) as [c|] eqn:Ec.
  - intros H. injection H as <- <-. intros other. rewrite Ec. reflexivity.
  - destruct (auth_getClient (world s)) as [[c|e] w]; intros H; injection H as <- <-.
    + intros other. reflexivity.
    + split; reflexivity.
Qed.

(** X5. A primary operation that succeeds is the whole call: its value is
    returned, the fallback is not invoked and nothing is printed.  In
    every case the primary operation is invoked exactly once and first,
    the fallback at most once and only after the warning, and the service
    object is left untouched. *)
Theorem withPermissionFallback_invocations {T}
    (f g : World -> result T * World) (context : string) (s : State World) :
  let run := withPermissionFallback (external "operation" f)
                                    (external "fallbackOperation" g) context s in
  this (snd run) = this s /\
  (forall v w1, f (world s) = (Ok v, w1) ->
     run = (Ok v, {| this := this s; world := w1;
                     trace := trace s ++ [Called "operation"] |})) /\
  (trace (snd run) = trace s ++ [Called "operation"] \/
   trace (snd run) = trace s ++ [Called "operation";
                                 ConsoleError (fallback_warning context);
                                 Called "fallbackOperation"]).
Proof.
  cbv zeta. destruct (f (world s)) as [[v|err] w1] eqn:Hf.
  - assert (Hrun : withPermissionFallback (external "operation" f)
                     (external "fallbackOperation" g) context s =
                   (Ok v, {| this := this s; world := w1;
                             trace := trace s ++ [Called "operation"] |}))
      by (unfold withPermissionFallback, external at 1; rewrite Hf; reflexivity).
    rewrite Hrun. split; [reflexivity|]. split; [|left; reflexivity].
    intros v' w' H. injection H as <- <-. reflexivity.
  - destruct (permission_related err) eqn:Hp.
    + assert (Hrun : withPermissionFallback (external "operation" f)
                       (external "fallbackOperation" g) context s =
                     (fst (g w1),
                      {| this := this s; world := snd (g w1);
                         trace := trace s ++ [Called "operation";
                                              ConsoleError (fallback_warning context);
                                              Called "fallbackOperation"] |})).
      { unfold withPermissionFallback, external at 1. rewrite Hf. cbv beta iota zeta.
        unfold permission_related in Hp. rewrite Hp.
        unfold bind, console_error, emit, external. cbn [world this trace].
        destruct (g w1) as [r w2]. cbn [fst snd]. rewrite <- !app_assoc. reflexivity. }
      rewrite Hrun. split; [reflexivity|]. split; [intros ? ? H; discriminate H|].
      right. reflexivity.
    + assert (Hrun : withPermissionFallback (external "operation" f)
                       (external "fallbackOperation" g) context s =
                     (Throw (Error_ ("[GSC] " ++ context ++ " failed: " ++
                                     message_or_String err)%string),
                      {| this := this s; world := w1;
                         trace := trace s ++ [Called "operation"] |})).
      { unfold withPermissionFallback, external at 1. rewrite Hf. cbv beta iota zeta.
        unfold permission_related in Hp. rewrite Hp. reflexivity. }
      rewrite Hrun. split; [reflexivity|]. split; [intros ? ? H; discriminate H|].
      left. reflexivity.
Qed.

(** X6. A thrown value that is not an [Error] never triggers the
    fallback, even when its text mentions a permission: the call throws
    an [Error] whose message is the text of the value behind the context
    prefix. *)
Theorem non_Error_is_never_retried {T}
    (f g : World -> result T * World) (context str : string)
    (s : State World) (w1 : World) :
  f (world s) = (Throw (NotError str), w1) ->
  withPermissionFallback (external "operation" f)
                         (external "fallbackOperation" g) context s =
  (Throw (Error_ ("[GSC] " ++ context ++ " failed: " ++ str)%string),
   {| this := this s; world := w1; trace := trace s ++ [Called "operation"] |}).
Proof.
  intros Hf. unfold withPermissionFallback, external at 1. rewrite Hf. reflexivity.
Qed.

(** The exact shape of what [searchAnalytics] does to the trace. *)
Lemma searchAnalytics_events siteUrl body (s : State World) :
  let s' := snd (searchAnalytics auth_getClient searchanalytics_query URL_hostname
                   siteUrl body s) in
  trace s' = trace s \/
  trace s' = trace s ++ [Query siteUrl body] \/
  trace s' = trace s ++ [Query siteUrl body;
                         ConsoleError (fallback_warning "searchAnalytics");
                         Query (normalizeUrl URL_hostname siteUrl) body].
Proof.
  unfold searchAnalytics, bind, getWebmasters, bind, ret.
  pose proof (ServiceProperties.getAuthClient_trace auth_getClient s) as Ha.
  destruct (getAuthClient auth_getClient s) as [[c|e] s0]; cbn [snd] in Ha |- *;
    [|left; exact Ha].
  unfold withPermissionFallback.
  pose proof (ServiceProperties.query_trace searchanalytics_query c siteUrl body s0) as Hq.
  destruct (query searchanalytics_query c siteUrl body s0) as [[v|err] s1];
    cbn [snd] in Hq |- *.
  - right; left. rewrite Hq, Ha. reflexivity.
  - cbv zeta. destruct (_ || _).
    + unfold bind, console_error, emit. cbn [trace this world].
      match goal with
      | |- context [query _ c ?u body ?st] =>
          pose proof (ServiceProperties.query_trace searchanalytics_query c u body st) as Hq2;
          destruct (query searchanalytics_query c u body st) as [r2 s2]
      end.
      cbn [snd trace] in Hq2 |- *. right; right.
      rewrite Hq2, Hq, Ha, <- !app_assoc. reflexivity.
    + cbn [snd]. right; left. rewrite Hq, Ha. reflexivity.
Qed.

(** X7. One enhanced query sends at most two queries upstream: none when
    no client can be obtained, otherwise one under the given site URL
    and, after a permission error only, a second one under the normalized
    site URL.  Both carry the same request body. *)
Theorem enhancedSearchAnalytics_upstream_calls siteUrl (requestBody : Request.t)
    (options : EnhancedSearchAnalyticsOptions) (s : State World) :
  let s' := snd (enhancedSearchAnalytics auth_getClient searchanalytics_query
                   URL_hostname siteUrl (Some requestBody) options s) in
  let body := Some (enhancedRequestBody requestBody options) in
  trace s' = trace s \/
  trace s' = trace s ++ [Query siteUrl body] \/
  trace s' = trace s ++ [Query siteUrl body;
                         ConsoleError (fallback_warning "searchAnalytics");
                         Query (normalizeUrl URL_hostname siteUrl) body].
Proof.
  cbv zeta. rewrite ServiceProperties.enhancedSearchAnalytics_state.
  apply searchAnalytics_events.
Qed.

(** X8. When the authentication back end fails, the exception reaches the
    caller as it is, neither wrapped with a context nor retried, and no
    query is sent; the failure is not remembered. *)
Theorem authentication_failure_propagates siteUrl (requestBody : Request.t)
    (options : EnhancedSearchAnalyticsOptions) (s : State World) (e : exn) (w : World) :
  cachedAuthClient (this s) = None ->
  auth_getClient (world s) = (Throw e, w) ->
  enhancedSearchAnalytics auth_getClient searchanalytics_query URL_hostname
    siteUrl (Some requestBody) options s =
  (Throw e, {| this := this s; world := w; trace := trace s |}).
Proof.
  intros Hc Ha.
  unfold enhancedSearchAnalytics, bind at 1, searchAnalytics, bind at 1,
    getWebmasters, bind at 1, getAuthClient.
  rewrite Hc, Ha. reflexivity.
Qed.

Lemma detect_length this rows thresholds out :
  detectQuickWins this rows thresholds = Ok out ->
  (List.length out <= List.length rows)%nat.
Proof.
  unfold detectQuickWins. cbv zeta.
  destruct (Array_map _ _) as [mapped|e] eqn:Hm; [|discriminate].
  cbn [bindR]. intros H. injection H as <-.
  rewrite <- (Permutation_length (Array_sort_perm by_additionalClicks mapped)).
  assert (Hl : forall l bs, Array_map (map_row this (destructure thresholds)) l = Ok bs ->
                            List.length bs = List.length l).
  { induction l as [|a l IH]; cbn [Array_map]; intros bs H.
    - injection H as <-. reflexivity.
    - destruct (map_row _ _ a); [|discriminate H]. cbn [bindR] in H.
      destruct (Array_map _ l); [|discriminate H]. cbn [bindR] in H.
      injection H as <-. cbn. f_equal. apply IH. reflexivity. }
  rewrite (Hl _ _ Hm). apply filter_length_le.
Qed.

(** X9. In the result of a successful enhanced query, [totalRows] is the
    number of rows returned, [rowLimit] is never zero or NaN (a missing
    or zero limit reads 1000), and opportunities are present only when
    detection was enabled and there is at least one row; there are then
    at most as many opportunities as rows. *)
Theorem enhancedSearchAnalytics_result_consistent siteUrl requestBody options
    (s s' : State World) resp :
  enhancedSearchAnalytics auth_getClient searchanalytics_query URL_hostname
    siteUrl requestBody options s = (Ok resp, s') ->
  exists rows md,
    EnhancedSearchAnalyticsResponse.rows resp = Some rows /\
    EnhancedSearchAnalyticsResponse.metadata resp = Some md /\
    Metadata.totalRows md = List.length rows /\
    truthy_number (Metadata.rowLimit md) = true /\
    match EnhancedSearchAnalyticsResponse.quickWins resp with
    | Some quickWins =>
        enableQuickWins options = Some true /\ rows <> [] /\
        (List.length quickWins <= List.length rows)%nat
    | None => True
    end.
Proof.
  unfold enhancedSearchAnalytics. destruct requestBody as [rb|]; [|discriminate].
  unfold bind at 1.
  destruct (searchAnalytics _ _ _ _ _ s) as [[result|e] s1]; [|discriminate].
  set (rows := match Response.rows result with Some rows => rows | None => [] end).
  assert (Hlimit : truthy_number
            match Request.rowLimit (enhancedRequestBody rb options) with
            | Some n => if truthy_number n then n else 1000%float
            | None => 1000%float
            end = true).
  { destruct (Request.rowLimit _) as [n|]; [|reflexivity].
    destruct (truthy_number n) eqn:E; [exact E|reflexivity]. }
  destruct (_ && _) eqn:Eq.
  - destruct (detectQuickWins _ _ _) as [qw|] eqn:Ed; [|discriminate].
    intros H. injection H as <- _. exists rows. eexists.
    split; [reflexivity|]. split; [reflexivity|]. split; [reflexivity|].
    split; [exact Hlimit|]. cbn [EnhancedSearchAnalyticsResponse.quickWins].
    apply andb_true_iff in Eq. destruct Eq as [Een Hlen].
    split; [|split].
    + unfold truthy_bool in Een. destruct (enableQuickWins options) as [[|]|];
        [reflexivity|discriminate|discriminate].
    + intros Hnil. fold rows in Hlen. rewrite Hnil in Hlen. discriminate.
    + exact (detect_length _ _ _ _ Ed).
  - unfold ret. intros H. injection H as <- _. exists rows. eexists.
    split; [reflexivity|]. split; [reflexivity|]. split; [reflexivity|].
    split; [exact Hlimit|exact I].
Qed.

(** X10. Without a request body the enhanced query throws "Request body
    is required" at once: no client is requested, nothing is sent, and
    the state is unchanged.  With one, the caller's filter groups are
    always kept, in order, at the front of those sent upstream, and no
    other field of the request is changed, whatever the options. *)
Theorem enhancedSearchAnalytics_request_guard siteUrl
    (options : EnhancedSearchAnalyticsOptions) (s : State World) :
  enhancedSearchAnalytics auth_getClient searchanalytics_query URL_hostname
    siteUrl None options s = (Throw (Error_ "Request body is required"), s) /\
  forall requestBody : Request.t,
    let sent := enhancedRequestBody requestBody options in
    (exists added, groups_of sent = groups_of requestBody ++ added) /\
    with_groups sent [] = with_groups requestBody [].
Proof.
  split; [reflexivity|].
  intros rb. unfold enhancedRequestBody. destruct (_ && _).
  - split; [|reflexivity]. eexists. reflexivity.
  - split; [|reflexivity]. exists []. rewrite app_nil_r. reflexivity.
Qed.

End Generic.

#[local] Existing Instance idle_engine.

Lemma getAuthClient_caches_witness :
  getAuthClient idle_auth fresh_state =
    (Ok (auth_client 0),
     {| this := {| cachedAuthClient := Some (auth_client 0); hasWriteAccess := true |};
        world := tt; trace := [] |}) /\
  getAuthClient failing_auth (cached_state true) = (Ok (auth_client 0), cached_state true).
Proof.
  split; [reflexivity|].
  exact (getAuthClient_caches idle_auth fresh_state _ (Ok (auth_client 0)) eq_refl
           failing_auth).
Defined.

Lemma non_Error_is_never_retried_witness :
  let f := fun w : unit => (@Throw nat (NotError "permission denied"), w) in
  let g := fun w : unit => (Ok 7%nat, w) in
  fst (withPermissionFallback (external "operation" f) (external "fallbackOperation" g)
         "getSitemap" fresh_state) =
  Throw (Error_ "[GSC] getSitemap failed: permission denied").
Proof.
  intros f g.
  rewrite (non_Error_is_never_retried f g "getSitemap" "permission denied"
             fresh_state tt eq_refl).
  reflexivity.
Defined.

Lemma authentication_failure_propagates_witness :
  cachedAuthClient (this fresh_state) = None /\
  enhancedSearchAnalytics failing_auth idle_query no_URL "sc-domain:example.com"
    (Some query_request) pattern_options fresh_state =
  (Throw (Error_ "invalid_grant"), fresh_state).
Proof.
  split; [reflexivity|].
  exact (authentication_failure_propagates failing_auth idle_query no_URL
           "sc-domain:example.com" query_request pattern_options fresh_state
           (Error_ "invalid_grant") tt eq_refl eq_refl).
Defined.

Lemma enhancedSearchAnalytics_result_consistent_witness :
  exists resp s' rows md,
    enhancedSearchAnalytics idle_auth idle_query no_URL "sc-domain:example.com"
      (Some query_request) pattern_options fresh_state = (Ok resp, s') /\
    EnhancedSearchAnalyticsResponse.rows resp = Some rows /\
    EnhancedSearchAnalyticsResponse.metadata resp = Some md /\
    Metadata.totalRows md = List.length rows.
Proof.
  destruct (enhancedSearchAnalytics idle_auth idle_query no_URL "sc-domain:example.com"
              (Some query_request) pattern_options fresh_state) as [[resp|e] s'] eqn:E;
    [|discriminate E].
  destruct (enhancedSearchAnalytics_result_consistent _ _ _ _ _ _ _ _ _ E)
    as (rows & md & Hr & Hm & Ht & _).
  exists resp, s', rows, md. repeat split; assumption.
Defined.

End ServiceMore.

(* ================================================================== *)
(** * Further properties: sitemaps, inspection and the request builder *)
(* ================================================================== *)

Module ApiProperties.

Import JS Schemas SchemaHelpers SearchConsole SearchConsoleApi Index Spec SpecMore.
Open Scope string_scope.
Open Scope list_scope.

Section Generic.
Context {World SitemapsList Sitemap Void Inspection : Type}.
Variable auth_getClient : World -> result AuthClient * World.
Variable sitemaps_get :
  AuthClient -> SitemapRequest -> World -> result Sitemap * World.
Variable sitemaps_submit :
  AuthClient -> SitemapRequest -> World -> result Void * World.
Variable sitemaps_delete :
  AuthClient -> SitemapRequest -> World -> result Void * World.
Variable index_inspect :
  AuthClient -> IndexInspectRequest -> World -> result Inspection * World.
Variable URL_hostname : string -> option string.

(** X11. A service without write access refuses to submit or delete a
    sitemap before doing anything else: no client is requested, nothing
    is sent, the state is unchanged.  A service is without write access
    exactly when its constructor asked for the read-only scope. *)
Theorem read_only_service_refuses_writes :
  (forall (request : SitemapRequest) (s : State World),
     hasWriteAccess (this s) = false ->
     submitSitemap auth_getClient sitemaps_submit URL_hostname request s =
       (Throw (Error_ "Write access required to submit sitemaps. Initialize service with writeAccess: true"), s) /\
     deleteSitemap auth_getClient sitemaps_delete URL_hostname request s =
       (Throw (Error_ "Write access required to delete sitemaps. Initialize service with writeAccess: true"), s)) /\
  (forall credentials writeAccess,
     hasWriteAccess (SearchConsoleApi.service (constructor credentials writeAccess)) = false <->
     scopes (constructor credentials writeAccess) =
       ["https://www.googleapis.com/auth/webmasters.readonly"]).
Proof.
  split.
  - intros request s H. unfold submitSitemap, deleteSitemap. rewrite H. split; reflexivity.
  - intros credentials [[|]|]; cbn; split; intros H; try reflexivity; discriminate H.
Qed.

(** What a sitemap method does after a permission error of its endpoint. *)
Lemma sitemap_fallback_outcome {R} (label context : string)
    (endpoint : AuthClient -> SitemapRequest -> World -> result R * World)
    (client : AuthClient) (request : SitemapRequest) (s : State World)
    (err : exn) (w1 : World) :
  cachedAuthClient (this s) = Some client ->
  endpoint client request (world s) = (Throw err, w1) ->
  permission_related err = true ->
  bind (getWebmasters auth_getClient) (fun webmasters =>
    withPermissionFallback
      (external label (endpoint webmasters request))
      (sitemap_fallback URL_hostname label endpoint webmasters request)
      context) s =
  retry_outcome URL_hostname label context endpoint client request s w1.
Proof.
  intros Hc He Hp. unfold permission_related in Hp. unfold retry_outcome.
  unfold bind at 1, getWebmasters, bind at 1, getAuthClient, ret. rewrite Hc.
  unfold withPermissionFallback, external at 1. rewrite He. cbv beta iota zeta.
  rewrite Hp. unfold bind, console_error, emit, sitemap_fallback, normalizeUrl_asserted.
  cbn [world this trace].
  destruct (siteUrl request) as [url|].
  - unfold external. cbn [world this trace].
    destruct (endpoint client _ w1) as [r w2]. cbn [fst snd].
    rewrite <- !app_assoc. reflexivity.
  - unfold throw. rewrite <- !app_assoc. reflexivity.
Qed.

(** X12. When the endpoint of [getSitemap], or of [submitSitemap] or
    [deleteSitemap] on a service with write access, fails with a
    permission error, the call is repeated once with the site URL
    normalized and the feed path unchanged, and the outcome of that
    second call is the outcome of the method.  If the request has no site
    URL, the retry raises a [TypeError] in place of the permission error,
    after the warning and without a second call. *)
Theorem sitemap_methods_retry_normalized
    (client : AuthClient) (request : SitemapRequest) (s : State World) :
  cachedAuthClient (this s) = Some client ->
  (forall err w1,
     sitemaps_get client request (world s) = (Throw err, w1) ->
     permission_related err = true ->
     getSitemap auth_getClient sitemaps_get URL_hostname request s =
     retry_outcome URL_hostname "sitemaps.get" "getSitemap" sitemaps_get
       client request s w1) /\
  (forall err w1,
     hasWriteAccess (this s) = true ->
     sitemaps_submit client request (world s) = (Throw err, w1) ->
     permission_related err = true ->
     submitSitemap auth_getClient sitemaps_submit URL_hostname request s =
     retry_outcome URL_hostname "sitemaps.submit" "submitSitemap" sitemaps_submit
       client request s w1) /\
  (forall err w1,
     hasWriteAccess (this s) = true ->
     sitemaps_delete client request (world s) = (Throw err, w1) ->
     permission_related err = true ->
     deleteSitemap auth_getClient sitemaps_delete URL_hostname request s =
     retry_outcome URL_hostname "sitemaps.delete" "deleteSitemap" sitemaps_delete
       client request s w1).
Proof.
  intros Hc. split; [|split].
  - intros err w1 He Hp. unfold getSitemap.
    exact (sitemap_fallback_outcome _ _ _ _ _ _ _ _ Hc He Hp).
  - intros err w1 Hw He Hp. unfold submitSitemap. rewrite Hw. cbn [negb].
    exact (sitemap_fallback_outcome _ _ _ _ _ _ _ _ Hc He Hp).
  - intros err w1 Hw He Hp. unfold deleteSitemap. rewrite Hw. cbn [negb].
    exact (sitemap_fallback_outcome _ _ _ _ _ _ _ _ Hc He Hp).
Qed.

(** X13. [indexInspect] never retries: whatever its endpoint throws, a
    permission error included, the endpoint is called once and the call
    throws an [Error] with the original message behind
    "[GSC] indexInspect failed: ". *)
Theorem indexInspect_wraps_without_retry
    (client : AuthClient) (requestBody : IndexInspectRequest) (s : State World)
    (err : exn) (w1 : World) :
  cachedAuthClient (this s) = Some client ->
  index_inspect client requestBody (world s) = (Throw err, w1) ->
  indexInspect auth_getClient index_inspect requestBody s =
  (Throw (Error_ ("[GSC] indexInspect failed: " ++ message_or_String err)%string),
   {| this := this s; world := w1;
      trace := trace s ++ [Called "urlInspection.index.inspect"] |}).
Proof.
  intros Hc He.
  unfold indexInspect, bind at 1, getSearchConsole, bind at 1, getAuthClient, ret.
  rewrite Hc. unfold external. rewrite He. reflexivity.
Qed.

End Generic.

Lemma sitemap_methods_retry_normalized_witness :
  let request := {| siteUrl := Some "https://example.com/";
                    feedpath := Some "https://example.com/sitemap.xml" |} in
  let endpoint := fun (c : AuthClient) (r : SitemapRequest) (w : unit) =>
    match siteUrl r with
    | Some "sc-domain:example.com" => (Ok 1%nat, w)
    | _ => (Throw (Error_ "User does not have sufficient permission for site"), w)
    end in
  cachedAuthClient (this (cached_state true)) = Some (auth_client 0) /\
  getSitemap idle_auth endpoint no_URL request (cached_state true) =
  (Ok 1%nat,
   {| this := this (cached_state true); world := tt;
      trace := [Called "sitemaps.get"; ConsoleError (fallback_warning "getSitemap");
                Called "sitemaps.get"] |}).
Proof.
  intros request endpoint. split; [reflexivity|].
  exact (proj1 (sitemap_methods_retry_normalized idle_auth endpoint endpoint endpoint no_URL
                  (auth_client 0) request (cached_state true) eq_refl)
           (Error_ "User does not have sufficient permission for site") tt
           eq_refl eq_refl).
Defined.

Lemma read_only_service_refuses_writes_witness :
  hasWriteAccess (this (cached_state false)) = false /\
  fst (submitSitemap idle_auth (@denying_endpoint SitemapRequest) no_URL
         {| siteUrl := Some "sc-domain:example.com"; feedpath := None |}
         (cached_state false)) =
  Throw (Error_ "Write access required to submit sitemaps. Initialize service with writeAccess: true").
Proof.
  split; [reflexivity|].
  rewrite (proj1 (proj1 (@read_only_service_refuses_writes unit nat idle_auth
                           denying_endpoint denying_endpoint no_URL)
                    {| siteUrl := Some "sc-domain:example.com"; feedpath := None |}
                    (cached_state false) eq_refl)).
  reflexivity.
Defined.

Lemma indexInspect_wraps_without_retry_witness :
  let requestBody := {| inspect_siteUrl := Some "sc-domain:example.com";
                        inspectionUrl := Some "https://example.com/";
                        languageCode := Some "en-US" |} in
  cachedAuthClient (this (cached_state true)) = Some (auth_client 0) /\
  permission_related (Error_ "User does not have sufficient permission for site") = true /\
  indexInspect idle_auth (@denying_endpoint IndexInspectRequest) requestBody
    (cached_state true) =
  (Throw (Error_ "[GSC] indexInspect failed: User does not have sufficient permission for site"),
   {| this := this (cached_state true); world := tt;
      trace := [Called "urlInspection.index.inspect"] |}).
Proof.
  intros requestBody. split; [reflexivity|]. split; [reflexivity|].
  exact (indexInspect_wraps_without_retry idle_auth denying_endpoint (auth_client 0)
           requestBody (cached_state true) _ tt eq_refl eq_refl).
Defined.

(** X14. If the comma-separated dimension list of the arguments passes
    [validateDimensions], the request built from the arguments has a
    non-empty dimension list and each of its entries, white space
    trimmed, is one of the seven valid dimensions. *)
Theorem validated_dimensions_reach_request (args : SearchAnalytics) (val : string) :
  SearchAnalytics.dimensions args = Some val ->
  validateDimensions val = true ->
  exists dims,
    Request.dimensions (buildSearchAnalyticsRequest args) = Some dims /\
    dims <> [] /\
    Forall (fun d => In d VALID_DIMENSIONS) dims.
Proof.
  intros Hd Hv. unfold buildSearchAnalyticsRequest. cbn [Request.dimensions].
  rewrite Hd. eexists. split; [reflexivity|]. split.
  - destruct (UrlProperties.split_char_head "," val) as (w & ws & -> & _). discriminate.
  - unfold validateDimensions in Hv. cbv zeta in Hv.
    rewrite forallb_forall in Hv. apply Forall_forall. intros d Hin.
    specialize (Hv d Hin). unfold Array_includes in Hv.
    apply existsb_exists in Hv. destruct Hv as (x & Hx & E).
    apply String.eqb_eq in E. subst. exact Hx.
Qed.

Lemma validated_dimensions_reach_request_witness :
  let args :=
    {| SearchAnalytics.siteUrl := "sc-domain:example.com";
       SearchAnalytics.startDate := "2024-01-01";
       SearchAnalytics.endDate := "2024-01-31";
       SearchAnalytics.dimensions := Some " query , page";
       SearchAnalytics.type := None;
       SearchAnalytics.aggregationType := None;
       SearchAnalytics.rowLimit := 1000%float;
       SearchAnalytics.startRow := 0%float;
       SearchAnalytics.dataState := "final";
       SearchAnalytics.pageFilter := None;
       SearchAnalytics.queryFilter := None;
       SearchAnalytics.countryFilter := None;
       SearchAnalytics.deviceFilter := None;
       SearchAnalytics.filterOperator := "equals" |} in
  validateDimensions " query , page" = true /\
  Request.dimensions (buildSearchAnalyticsRequest args) = Some ["query"; "page"].
Proof.
  intros args. split; [reflexivity|].
  destruct (validated_dimensions_reach_request args " query , page" eq_refl eq_refl)
    as (dims & H & _ & _).
  rewrite H. vm_compute in H. injection H as <-. reflexivity.
Defined.

(** X15. In the request the enhanced tool sends, the group of the simple
    filters, when there is one, comes first and the pattern group last:
    with a non-empty pattern and "query" among the dimensions, the filter
    groups are those of the query builder followed by the one pattern
    group, two groups at most. *)
Theorem pattern_group_follows_builder_group (args : SearchAnalytics)
    (options : EnhancedSearchAnalyticsOptions) (pattern : string) :
  regexFilter options = Some pattern -> pattern <> "" ->
  requests_query (buildSearchAnalyticsRequest args) = true ->
  let sent := enhancedRequestBody (buildSearchAnalyticsRequest args) options in
  Request.dimensionFilterGroups sent =
    Some (match buildFilterGroups args with Some groups => groups | None => [] end ++
          [regex_group pattern]) /\
  (List.length (groups_of sent) <= 2)%nat.
Proof.
  intros Hre Hne Hq sent.
  assert (Ht : truthy (regexFilter options) = true).
  { rewrite Hre. destruct pattern; [contradiction|reflexivity]. }
  assert (Hs : Request.dimensionFilterGroups sent =
               Some (match buildFilterGroups args with Some groups => groups | None => [] end ++
                     [regex_group pattern])).
  { subst sent. unfold enhancedRequestBody. unfold requests_query in Hq.
    rewrite Ht, Hq, Hre. reflexivity. }
  split; [exact Hs|]. unfold groups_of. rewrite Hs.
  unfold buildFilterGroups. cbv zeta.
  destruct (0 <? _)%nat; cbn; repeat constructor.
Qed.

Lemma pattern_group_follows_builder_group_witness :
  let args :=
    {| SearchAnalytics.siteUrl := "sc-domain:example.com";
       SearchAnalytics.startDate := "2024-01-01";
       SearchAnalytics.endDate := "2024-01-31";
       SearchAnalytics.dimensions := Some "query,page";
       SearchAnalytics.type := None;
       SearchAnalytics.aggregationType := None;
       SearchAnalytics.rowLimit := 1000%float;
       SearchAnalytics.startRow := 0%float;
       SearchAnalytics.dataState := "final";
       SearchAnalytics.pageFilter := Some "/blog";
       SearchAnalytics.queryFilter := None;
       SearchAnalytics.countryFilter := None;
       SearchAnalytics.deviceFilter := None;
       SearchAnalytics.filterOperator := "contains" |} in
  requests_query (buildSearchAnalyticsRequest args) = true /\
  List.map (fun g => List.map operator (filters g))
    (groups_of (enhancedRequestBody (buildSearchAnalyticsRequest args) pattern_options)) =
  [["contains"]; ["includingRegex"]].
Proof.
  intros args. split; [reflexivity|].
  destruct (pattern_group_follows_builder_group args pattern_options "(medical|health)"
              eq_refl ltac:(discriminate) eq_refl) as [H _].
  unfold groups_of. rewrite H. reflexivity.
Defined.

End ApiProperties.

(* ================================================================== *)
(** * Further properties: detection *)
(* ================================================================== *)

Section MoreFloatFacts.
Local Open Scope float_scope.

Lemma leb_zero_spec x :
  (0 <=? x) = match Prim2SF x with
              | S754_zero _ | S754_infinity false | S754_finite false _ _ => true
              | _ => false
              end.
Proof.
  rewrite leb_spec, Prim2SF_zero.
  destruct (Prim2SF x) as [s|s| |s m e]; try destruct s; reflexivity.
Qed.

Lemma add_nonneg a b :
  (0 <=? a) = true -> (0 <=? b) = true -> (0 <=? a + b) = true.
Proof.
  rewrite !leb_zero_spec, add_spec. unfold SF64add.
  destruct (Prim2SF a) as [sa|sa| |sa ma ea]; try destruct sa; try discriminate;
  destruct (Prim2SF b) as [sb|sb| |sb mb eb]; try destruct sb; try discriminate;
    intros _ _; try reflexivity.
  unfold SFadd. cbn [cond_Zopp Z.add binary_normalize].
  match goal with
  | |- context [binary_round prec emax false ?p ?e] =>
      pose proof (binary_round_signed false p e) as H;
      destruct (binary_round prec emax false p e) as [s|s| |s m' e']
  end; simpl in H; subst; try reflexivity; contradiction.
Qed.

Lemma Math_max_zero_cases b :
  is_nan (JS.Math_max 0 b) = true \/
  JS.Math_max 0 b = 0 \/
  (JS.Math_max 0 b = b /\ (0 <? b) = true).
Proof.
  unfold JS.Math_max. change (is_nan 0) with false. cbn [orb].
  destruct (is_nan b); [left; reflexivity|].
  destruct (0 <? b) eqn:E; [right; right; split; reflexivity|].
  destruct (b <? 0); [right; left; reflexivity|].
  change (get_sign 0) with false. right; left; reflexivity.
Qed.

Lemma Math_max_zero_not_negative b : (JS.Math_max 0 b <? 0) = false.
Proof.
  destruct (Math_max_zero_cases b) as [H|[->|[-> H]]].
  - pose proof (float_cmp_total (JS.Math_max 0 b) 0) as []; congruence.
  - reflexivity.
  - pose proof (float_cmp_total 0 b). pose proof (float_cmp_total b 0).
    destruct (b <? 0) eqn:E; [exfalso; rank_cases|reflexivity].
Qed.

Lemma Math_max_zero_nonneg b :
  is_nan (JS.Math_max 0 b) = false -> (0 <=? JS.Math_max 0 b) = true.
Proof.
  intros Hn. destruct (Math_max_zero_cases b) as [H|[->|[-> H]]].
  - congruence.
  - reflexivity.
  - apply ltb_leb, H.
Qed.

End MoreFloatFacts.

Module DetectionMore.

Import JS Schemas SearchConsole Index Spec SpecMore DetectionFacts.
Open Scope string_scope.
Open Scope list_scope.
Open Scope float_scope.

Section Engine.
Context {engine : Engine}.

(** X16. Whenever detection returns, its list holds exactly the
    opportunities of the included rows, one for each: an opportunity is
    in the list if and only if it is what the mapping makes of some row
    of the input that passes the filter, and the list is as long as the
    filtered row set. *)
Theorem detection_sound_and_complete
    (this : SearchConsoleService) (thresholds : option QuickWinsThresholds)
    (rows : list SearchAnalyticsRow) (out : list QuickWin) :
  let th := destructure thresholds in
  detectQuickWins this rows thresholds = Ok out ->
  List.length out = List.length (List.filter (filter_row th) rows) /\
  forall q,
    In q out <->
    exists row, In row rows /\ filter_row th row = true /\ map_row this th row = Ok q.
Proof.
  intros th H. destruct (detect_Ok _ _ _ _ H) as (mapped & Hm & ->).
  fold th in Hm. pose proof (Array_map_Forall2 _ _ _ Hm) as HF.
  pose proof (Array_sort_perm by_additionalClicks mapped) as HP.
  split.
  - rewrite <- (Permutation_length HP). symmetry. exact (Forall2_length HF).
  - intros q. split.
    + intros Hin. apply (Permutation_in _ (Permutation_sym HP)) in Hin.
      destruct (Forall2_In_r _ _ _ _ HF Hin) as (row & Hrow & Hq).
      apply filter_In in Hrow. exists row. tauto.
    + intros (row & Hin & Hf & Hq).
      assert (Hrow : In row (List.filter (filter_row th) rows))
        by (apply filter_In; tauto).
      destruct (Forall2_In_l _ _ _ _ HF Hrow) as (q' & Hq' & Hmap).
      rewrite Hq in Hmap. injection Hmap as <-.
      apply (Permutation_in _ HP). exact Hq'.
Qed.

(** X17. Detection throws exactly when some row that passes the filter
    has no position, and what it throws is then the [TypeError] of
    [position.toFixed]; a missing click count, click-through-rate,
    impression count or key never makes it throw. *)
Theorem detection_throws_iff
    (this : SearchConsoleService) (thresholds : option QuickWinsThresholds)
    (rows : list SearchAnalyticsRow) :
  let th := destructure thresholds in
  ((exists e, detectQuickWins this rows thresholds = Throw e) <->
   (exists row, In row rows /\ filter_row th row = true /\ position row = None)) /\
  (forall e, detectQuickWins this rows thresholds = Throw e ->
     e = Error_ "Cannot read properties of undefined (reading 'toFixed')").
Proof.
  intros th.
  pose proof (fun e => detect_Throw_row this rows thresholds e) as Hthrow. fold th in Hthrow.
  split; [split|].
  - intros (e & H). destruct (Hthrow e H) as (row & ? & ? & ? & _). eauto.
  - intros (row & Hin & Hf & Hp).
    destruct (detectQuickWins this rows thresholds) as [out|e] eqn:E; [|eauto].
    exfalso. destruct (detect_Ok _ _ _ _ E) as (mapped & Hm & _). fold th in Hm.
    assert (Hrow : In row (List.filter (filter_row th) rows))
      by (apply filter_In; tauto).
    destruct (Forall2_In_l _ _ _ _ (Array_map_Forall2 _ _ _ Hm) Hrow) as (q & _ & Hq).
    unfold map_row in Hq. cbv zeta in Hq. rewrite Hp in Hq. discriminate Hq.
  - intros e H. destruct (Hthrow e H) as (_ & _ & _ & _ & ->). reflexivity.
Qed.

(** X18. The [additionalClicks] of an opportunity is never negative: it
    is NaN or at least zero. *)
Theorem additionalClicks_never_negative
    (this : SearchConsoleService) (thresholds : option QuickWinsThresholds)
    (rows : list SearchAnalyticsRow) (out : list QuickWin) :
  detectQuickWins this rows thresholds = Ok out ->
  Forall (fun q =>
            num_lt (QuickWin.additionalClicks q) 0 = false /\
            (is_nan (QuickWin.additionalClicks q) = false ->
             num_ge (QuickWin.additionalClicks q) 0 = true)) out.
Proof.
  intros H. apply Forall_forall. intros q Hin.
  destruct (detect_origin _ _ _ _ H q Hin) as (row & _ & _ & Hq).
  destruct (DetectionProperties.map_row_fields _ _ _ _ Hq) as (_ & _ & _ & Ha & _).
  rewrite Ha. unfold num_lt, num_ge. split.
  - apply Math_max_zero_not_negative.
  - apply Math_max_zero_nonneg.
Qed.

Lemma classify_monotone a b :
  num_ge a b = true -> (level (classify b) <= level (classify a))%nat.
Proof.
  unfold classify, num_ge. intros Hab.
  destruct (100 <=? b) eqn:B100.
  - rewrite (leb_trans _ _ _ B100 Hab). constructor.
  - destruct (25 <=? b) eqn:B25.
    + rewrite (leb_trans _ _ _ B25 Hab). destruct (100 <=? a); cbn; lia.
    + cbn. lia.
Qed.

(** X19. Under validated thresholds and rows whose numbers are finite,
    the list detection returns is grouped by level: every High
    opportunity comes before every Medium one, and every Medium one
    before every Low one. *)
Theorem opportunities_grouped_by_level
    (this : SearchConsoleService) (thresholds : option QuickWinsThresholds)
    (rows : list SearchAnalyticsRow) :
  validated (destructure thresholds) = true ->
  List.forallb finite_row rows = true ->
  exists out, detectQuickWins this rows thresholds = Ok out /\ by_level out.
Proof.
  intros Hv Hfin. set (th := destructure thresholds) in *.
  destruct (DetectionProperties.validated_facts th Hv) as (_ & Hpos & _).
  destruct (detectQuickWins this rows thresholds) as [out|e] eqn:E.
  2:{ exfalso. destruct (detect_Throw_row _ _ _ _ E) as (row & _ & Hf & Hp & _).
      destruct (DetectionProperties.included_has_position th row Hpos Hf) as [p Hp'].
      congruence. }
  exists out. split; [reflexivity|].
  pose proof (detect_origin _ _ _ _ E) as Hsound.
  assert (Hfields : Forall (fun q =>
             is_nan (QuickWin.additionalClicks q) = false /\
             QuickWin.opportunity q = classify (QuickWin.additionalClicks q)) out).
  { apply Forall_forall. intros q Hin.
    destruct (Hsound q Hin) as (row & Hrow & Hf & Hq). split.
    - rewrite forallb_forall in Hfin.
      eapply DetectionProperties.additionalClicks_not_nan; eauto.
    - apply (DetectionProperties.map_row_fields _ _ _ _ Hq). }
  destruct (detect_Ok _ _ _ _ E) as (mapped & Hm & Hout).
  assert (Hdesc : descending out).
  { rewrite Hout in Hfields |- *.
    apply (Array_sort_sorted QuickWin.additionalClicks by_additionalClicks
             (fun a b => eq_refl)).
    apply (Permutation_Forall
             (Permutation_sym (Array_sort_perm by_additionalClicks mapped))).
    eapply Forall_impl; [|exact Hfields]. cbv beta. tauto. }
  clear - Hdesc Hfields. unfold by_level, descending in *.
  induction Hdesc as [|a l Hs IH Ha]; [constructor|].
  inversion Hfields as [|? ? [_ Hoa] Hl]; subst.
  constructor; [apply IH; exact Hl|].
  rewrite Forall_forall in Ha, Hl |- *. intros b Hb.
  rewrite Hoa, (proj2 (Hl b Hb)). apply classify_monotone, Ha, Hb.
Qed.

Lemma position_band_cases p :
  (4 <=? p) && (p <=? 10) =
  ((4 <=? p) && (p <=? 6)) || ((6 <? p) && (p <=? 10)).
Proof.
  pose proof (float_cmp_total 4 p). pose proof (float_cmp_total p 6).
  pose proof (float_cmp_total 6 p). pose proof (float_cmp_total p 10).
  destruct (4 <=? p) eqn:E4, (p <=? 10) eqn:E10, (p <=? 6) eqn:E6, (6 <? p) eqn:E6';
    try reflexivity; exfalso;
    repeat match goal with H : float_cmp _ _ |- _ => destruct H end;
    try congruence;
    repeat match goal with H : _ = true \/ _ |- _ => destruct H end;
    try congruence; try discriminate;
    change (frank 4) with (1, -50, 4503599627370496)%Z in *;
    change (frank 6) with (1, -50, 6755399441055744)%Z in *;
    change (frank 10) with (1, -49, 5629499534213120)%Z in *;
    unfold frank in *;
    destruct (rank (Prim2SF p)) as [[? ?] ?]; cbn [lex_lt] in *;
    repeat match goal with H : (_, _) = (_, _) |- _ => inversion H; subst; clear H end;
    lia.
Qed.

(** X20. The generic recommendation is given exactly when no advice
    applies: the position is outside [4, 10] (or missing), the
    click-through-rate in percent is not below 1, and the impressions are
    not at least 1000 (or missing).  In every other case the text is made
    of the applicable advice only. *)
Theorem generic_recommendation_iff
    (this : SearchConsoleService) (position : option float) (ctr : float)
    (impressions : option float) :
  generateRecommendation this position ctr impressions = generic_advice <->
  num_ge (ToNumber position) 4 && num_le (ToNumber position) 10 = false /\
  num_lt ctr 1 = false /\
  num_ge (ToNumber impressions) 1000 = false.
Proof.
  unfold generateRecommendation, num_ge, num_le, num_gt, num_lt. cbv zeta.
  rewrite position_band_cases.
  destruct ((4 <=? ToNumber position) && (ToNumber position <=? 6)),
           ((6 <? ToNumber position) && (ToNumber position <=? 10)),
           (ctr <? 1), (1000 <=? ToNumber impressions);
    cbn; split; intros H; try discriminate H; try tauto;
    destruct H as (? & ? & ?); discriminate.
Qed.

(** X21. When the position range of the thresholds lies within [4, 10],
    as the default range does, the recommendation of every opportunity
    starts with one of the two pieces of position advice; the generic
    recommendation never appears. *)
Theorem recommendation_has_position_advice
    (this : SearchConsoleService) (thresholds : option QuickWinsThresholds)
    (row : SearchAnalyticsRow) (q : QuickWin) :
  let th := destructure thresholds in
  num_ge (th_positionRangeMin th) 4 = true ->
  num_le (th_positionRangeMax th) 10 = true ->
  filter_row th row = true ->
  map_row this th row = Ok q ->
  position_advice (QuickWin.recommendation q) = true /\
  QuickWin.recommendation q <> generic_advice.
Proof.
  intros th Hlo Hhi Hf Hq. unfold num_ge, num_le in *.
  apply DetectionProperties.filter_row_iff in Hf. destruct Hf as (_ & _ & Hp1 & Hp2).
  unfold num_ge, num_le in *.
  unfold map_row in Hq. cbv zeta in Hq.
  destruct (position row) as [p|]; [|discriminate Hq].
  cbn [nullish] in Hp1, Hp2. injection Hq as <-. cbn [QuickWin.recommendation].
  assert (H4 : (4 <=? p) = true) by (eapply leb_trans; eassumption).
  assert (H10 : (p <=? 10) = true) by (eapply leb_trans; eassumption).
  pose proof (position_band_cases p) as Hb. rewrite H4, H10 in Hb. cbn [andb] in Hb.
  unfold generateRecommendation, num_ge, num_le, num_gt, num_lt. cbv zeta.
  cbn [ToNumber]. rewrite H4, H10. cbn [andb].
  destruct (p <=? 6), (6 <? p); try discriminate Hb;
    destruct (_ <? 1), (1000 <=? _); cbn; split; (reflexivity || discriminate).
Qed.

End Engine.

#[local] Existing Instance idle_engine.

Lemma detection_sound_and_complete_witness :
  exists out,
    detectQuickWins service
      [example_row; row_yielding 10 0.5; row_yielding 100 0.002] None = Ok out /\
    List.length out = 2%nat.
Proof.
  destruct (detectQuickWins service
              [example_row; row_yielding 10 0.5; row_yielding 100 0.002] None)
    as [out|e] eqn:E; [|discriminate E].
  exists out. split; [reflexivity|].
  rewrite (proj1 (detection_sound_and_complete service None _ out E)). reflexivity.
Defined.

Lemma additionalClicks_never_negative_witness :
  exists out,
    detectQuickWins service [row_yielding (-40) 0.01] None = Ok out /\
    List.map QuickWin.additionalClicks out = [0] /\
    Forall (fun q => num_lt (QuickWin.additionalClicks q) 0 = false) out.
Proof.
  destruct (detectQuickWins service [row_yielding (-40) 0.01] None) as [out|e] eqn:E;
    [|discriminate E].
  exists out. split; [reflexivity|].
  pose proof (additionalClicks_never_negative service None _ out E) as H.
  split.
  - vm_compute in E. injection E as <-. reflexivity.
  - eapply Forall_impl; [|exact H]. cbv beta. tauto.
Defined.

Lemma opportunities_grouped_by_level_witness :
  let rows := [ row_yielding 10 0.001; row_yielding 100 0.002;
                row_yielding 30 0.003; row_yielding 250 0.004 ] in
  validated (destructure None) = true /\
  List.forallb finite_row rows = true /\
  exists out,
    detectQuickWins service rows None = Ok out /\
    List.map QuickWin.opportunity out = [High; High; Medium; Low].
Proof.
  intros rows. split; [reflexivity|]. split; [reflexivity|].
  destruct (opportunities_grouped_by_level service None rows eq_refl eq_refl)
    as (out & Hout & _).
  exists out. split; [exact Hout|].
  vm_compute in Hout. injection Hout as <-. reflexivity.
Defined.

Lemma recommendation_has_position_advice_witness :
  exists q,
    map_row service (destructure None) example_row = Ok q /\
    position_advice (QuickWin.recommendation q) = true.
Proof.
  destruct (map_row service (destructure None) example_row) as [q|e] eqn:E;
    [|discriminate E].
  exists q. split; [reflexivity|].
  exact (proj1 (recommendation_has_position_advice service None example_row q
                  eq_refl eq_refl eq_refl E)).
Defined.

End DetectionMore.

(* ================================================================== *)
(** * The quick-wins report and the buffer comparison *)
(* ================================================================== *)

Module ReportProperties.

Import JS Schemas SearchConsole Index Spec SpecMore IndexHandlers.
Open Scope string_scope.
Open Scope float_scope.
Open Scope list_scope.

Section Engine.
Context {engine : Engine}.

Lemma reduce_sum_nonneg (f : QuickWin -> float) (l : list QuickWin) :
  Forall (fun q => num_ge (f q) 0 = true) l ->
  num_ge (reduce_sum f l) 0 = true.
Proof.
  unfold reduce_sum, num_ge.
  assert (Hgen : forall acc, (0 <=? acc) = true ->
            Forall (fun q => (0 <=? f q) = true) l ->
            (0 <=? fold_left (fun sum qw => sum + f qw) l acc) = true).
  { induction l as [|q l IH]; intros acc Hacc Hall; cbn [fold_left].
    - exact Hacc.
    - inversion Hall; subst. apply IH; [|assumption].
      apply add_nonneg; assumption. }
  intros Hall. apply Hgen; [reflexivity|exact Hall].
Qed.

(** X22. When the [detect_quick_wins] tool answers, its summary agrees
    with its list: the count is the length of the list, no listed
    opportunity has negative additional clicks, and, as long as no
    listed figure is NaN, the total of the additional clicks is not
    negative either. *)
Theorem report_summary_consistent {World}
    (auth_getClient : World -> result AuthClient * World)
    (searchanalytics_query : AuthClient -> string -> SearchAnalyticsQueryRequest ->
                             World -> result Response.t * World)
    (URL_hostname : string -> option string) (Number_toString : float -> string)
    (parsed : QuickWinsDetection) (s s' : State World) (report : Report) :
  detect_quick_wins auth_getClient searchanalytics_query URL_hostname Number_toString
    parsed s = (Ok report, s') ->
  totalOpportunities (summary report) = List.length (quickWins report) /\
  analysisComplete report = true /\
  Forall (fun q => num_lt (QuickWin.additionalClicks q) 0 = false) (quickWins report) /\
  (Forall (fun q => is_nan (QuickWin.additionalClicks q) = false) (quickWins report) ->
   num_ge (totalAdditionalClicks (summary report)) 0 = true).
Proof.
  intros H. unfold detect_quick_wins, bind in H.
  destruct (enhancedSearchAnalytics _ _ _ _ _ _ s) as [[data|e] s1] eqn:E;
    [|discriminate H].
  unfold ret in H. injection H as <- <-.
  destruct (ServiceProperties.enhanced_quickWins_determined _ _ _ _ _ _ _ _ _ E)
    as (rows & _ & Hq).
  unfold quick_wins_report. cbn [quickWins summary totalOpportunities
    totalAdditionalClicks analysisComplete].
  destruct (EnhancedSearchAnalyticsResponse.quickWins data) as [l|] eqn:El.
  2:{ split; [reflexivity|]. split; [reflexivity|]. split; [constructor|].
      intros _. reflexivity. }
  assert (Hdet : exists this th, detectQuickWins this rows th = Ok l).
  { destruct (_ && _) in Hq; [|discriminate Hq].
    destruct (detectQuickWins _ rows _) as [out|e] eqn:D in Hq; [|discriminate Hq].
    injection Hq as <-. eauto. }
  destruct Hdet as (this & th & Hdet).
  assert (Hnn : Forall (fun q => num_lt (QuickWin.additionalClicks q) 0 = false) l).
  { apply Forall_forall. intros q Hin.
    destruct (DetectionFacts.detect_origin _ _ _ _ Hdet q Hin) as (row & _ & _ & Hm).
    unfold map_row in Hm. cbv zeta in Hm.
    destruct (position row); [|discriminate Hm].
    injection Hm as <-. cbn [QuickWin.additionalClicks].
    apply Math_max_zero_not_negative. }
  repeat split; try assumption.
  intros Hnan. apply reduce_sum_nonneg.
  apply Forall_forall. intros q Hin.
  rewrite Forall_forall in Hnn, Hnan.
  specialize (Hnn q Hin). specialize (Hnan q Hin).
  unfold num_ge, num_lt in *.
  apply not_ltb_leb; [assumption|reflexivity|assumption].
Qed.

End Engine.

#[local] Existing Instance idle_engine.

Lemma report_summary_consistent_witness :
  exists report s',
    detect_quick_wins idle_auth
      (answering_query [example_row; row_yielding 10 0.5; row_yielding 100 0.002])
      no_URL (fun _ => "") default_arguments fresh_state = (Ok report, s') /\
    totalOpportunities (summary report) = List.length (quickWins report) /\
    List.map QuickWin.additionalClicks (quickWins report) = [100; 48]%float.
Proof.
  destruct (detect_quick_wins idle_auth
              (answering_query [example_row; row_yielding 10 0.5; row_yielding 100 0.002])
              no_URL (fun _ => "") default_arguments fresh_state)
    as [[report|e] s'] eqn:E; [|discriminate E].
  exists report, s'. split; [reflexivity|]. split.
  - exact (proj1 (report_summary_consistent _ _ _ _ _ _ _ _ E)).
  - injection E as <- _. reflexivity.
Defined.

End ReportProperties.

Module BufferProperties.

Import BufferEq.
Local Open Scope Z_scope.
Open Scope list_scope.

Lemma ToInt32_small z : 0 <= z < 2 ^ 31 -> ToInt32 z = z.
Proof.
  intros H. unfold ToInt32. rewrite Z.mod_small; lia.
Qed.

Lemma log2_byte z : 0 <= z < 256 -> Z.log2 z < 8.
Proof.
  intros H. destruct (Z.eq_dec z 0) as [->|Hz]; [reflexivity|].
  apply Z.log2_lt_pow2; [lia|]. change (2 ^ 8) with 256. lia.
Qed.

Lemma byte_of_log2 z : 0 <= z -> Z.log2 z < 8 -> 0 <= z < 256.
Proof.
  intros H0 H. split; [assumption|].
  destruct (Z.eq_dec z 0) as [->|Hz]; [lia|].
  change 256 with (2 ^ 8). apply Z.log2_lt_pow2; [lia|assumption].
Qed.

Lemma lxor_byte x y : 0 <= x < 256 -> 0 <= y < 256 -> 0 <= Z.lxor x y < 256.
Proof.
  intros Hx Hy. apply byte_of_log2.
  - apply Z.lxor_nonneg. lia.
  - pose proof (Z.log2_lxor x y (proj1 Hx) (proj1 Hy)).
    pose proof (log2_byte x Hx). pose proof (log2_byte y Hy). lia.
Qed.

Lemma lor_byte x y : 0 <= x < 256 -> 0 <= y < 256 -> 0 <= Z.lor x y < 256.
Proof.
  intros Hx Hy. apply byte_of_log2.
  - apply Z.lor_nonneg. lia.
  - rewrite (Z.log2_lor x y (proj1 Hx) (proj1 Hy)).
    pose proof (log2_byte x Hx). pose proof (log2_byte y Hy). lia.
Qed.

Lemma at_index_byte a i : 0 <= at_index a i < 256.
Proof.
  unfold at_index. destruct (nth_error a i) as [x|]; [|lia].
  pose proof (Byte.to_N_bounded x) as H. lia.
Qed.

Lemma at_index_inj x y : Z.of_N (Byte.to_N x) = Z.of_N (Byte.to_N y) -> x = y.
Proof.
  intros H. apply N2Z.inj in H.
  pose proof (Byte.of_to_N x) as Hx. pose proof (Byte.of_to_N y) as Hy.
  rewrite H in Hx. congruence.
Qed.

(** The accumulator of the loop is [0] at the end exactly when it was [0]
    at the start and the two buffers agree at every index visited. *)
Lemma loop_zero a b (l : list nat) (c : Z) :
  0 <= c < 256 ->
  List.fold_left
    (fun c i => ToInt32 (Z.lor c (ToInt32 (Z.lxor (at_index a i) (at_index b i)))))
    l c = 0 <->
  c = 0 /\ forall i, In i l -> at_index a i = at_index b i.
Proof.
  revert c. induction l as [|i l IH]; intros c Hc; cbn [fold_left].
  - split; [intros ->; split; [reflexivity|intros i []]|intros [-> _]; reflexivity].
  - pose proof (lxor_byte _ _ (at_index_byte a i) (at_index_byte b i)) as Hx.
    rewrite (ToInt32_small (Z.lxor _ _)) by lia.
    pose proof (lor_byte _ _ Hc Hx) as Ho.
    rewrite (ToInt32_small (Z.lor _ _)) by lia.
    rewrite (IH _ Ho). rewrite Z.lor_eq_0_iff, Z.lxor_eq_0_iff.
    split.
    + intros [[-> Hi] Hl]. split; [reflexivity|].
      intros j [<-|Hj]; [assumption|apply Hl; assumption].
    + intros [-> Hl]. repeat split.
      * apply Hl. left. reflexivity.
      * intros j Hj. apply Hl. right. assumption.
Qed.

Lemma agree_everywhere (a b : list Byte.byte) :
  List.length a = List.length b ->
  (forall i, (i < List.length a)%nat -> at_index a i = at_index b i) ->
  a = b.
Proof.
  revert b. induction a as [|x a IH]; intros [|y b] Hlen Hall;
    try discriminate Hlen; [reflexivity|].
  f_equal.
  - apply at_index_inj. apply (Hall 0%nat). cbn. lia.
  - apply IH; [cbn in Hlen; lia|].
    intros i Hi. apply (Hall (S i)). cbn. lia.
Qed.

Lemma xor_fold_zero (a b : list Byte.byte) :
  List.length a = List.length b -> (xor_fold a b = 0 <-> a = b).
Proof.
  intros Hlen. unfold xor_fold. rewrite loop_zero by lia. split.
  - intros [_ H]. apply agree_everywhere; [assumption|].
    intros i Hi. apply H. apply in_seq. lia.
  - intros ->. split; [reflexivity|]. intros; reflexivity.
Qed.

(** X23. [bufferEq] decides equality of buffers. With the platform's
    [timingSafeEqual] absent, or present and deciding equality of
    buffers of one length (the only ones it is handed), the answer is
    true exactly when both arguments are buffers holding the same bytes;
    anything that is not a buffer, and buffers of different lengths,
    compare unequal. *)
Theorem bufferEq_decides_equality
    (timingSafeEqual : option (list Byte.byte -> list Byte.byte -> bool))
    (a b : value) :
  (forall native, timingSafeEqual = Some native ->
     forall x y, List.length x = List.length y -> (native x y = true <-> x = y)) ->
  (bufferEq timingSafeEqual a b = true <->
   exists bytes, a = Buffer bytes /\ b = Buffer bytes).
Proof.
  intros Hnative. unfold bufferEq.
  destruct a as [x|], b as [y|];
    try (split; [discriminate|intros (bytes & Ha & Hb); discriminate]).
  destruct (Nat.eqb (List.length x) (List.length y)) eqn:Hlen; cbn [negb].
  - apply Nat.eqb_eq in Hlen.
    assert (Heq : (match timingSafeEqual with
                   | Some native => native x y
                   | None => xor_fold x y =? 0
                   end) = true <-> x = y).
    { destruct timingSafeEqual as [native|].
      - apply (Hnative native eq_refl); assumption.
      - rewrite Z.eqb_eq. apply xor_fold_zero; assumption. }
    rewrite Heq. split.
    + intros ->. exists y. split; reflexivity.
    + intros (bytes & Ha & Hb). congruence.
  - apply Nat.eqb_neq in Hlen. split; [discriminate|].
    intros (bytes & Ha & Hb). exfalso. apply Hlen. congruence.
Qed.

Lemma bufferEq_decides_equality_witness :
  bufferEq None (Buffer [Byte.x61; Byte.x62]) (Buffer [Byte.x61; Byte.x62]) = true <->
  exists bytes, Buffer [Byte.x61; Byte.x62] = Buffer bytes /\
                Buffer [Byte.x61; Byte.x62] = Buffer bytes.
Proof.
  apply (bufferEq_decides_equality None). intros native H. discriminate H.
Defined.

End BufferProperties.

(* ================================================================== *)
(** * Further properties: the remaining methods and the detection tool *)
(* ================================================================== *)

Module ToolProperties.

Import JS Schemas SearchConsole SearchConsoleApi Index Spec SpecMore IndexHandlers.
Open Scope string_scope.
Open Scope list_scope.

Section Generic.

Context {engine : Engine}.
Variable World : Type.
Variable auth_getClient : World -> result AuthClient * World.
Variable searchanalytics_query :
  AuthClient -> string -> SearchAnalyticsQueryRequest -> World ->
  result Response.t * World.
Variable URL_hostname : string -> option string.

(** With a cached client and an upstream that answers, [searchAnalytics]
    is the one query. *)
Lemma searchAnalytics_success siteUrl body (s : State World)
    (client : AuthClient) (response : Response.t) (w1 : World) :
  cachedAuthClient (this s) = Some client ->
  searchanalytics_query client siteUrl body (world s) = (Ok response, w1) ->
  searchAnalytics auth_getClient searchanalytics_query URL_hostname siteUrl body s =
  (Ok response,
   {| this := this s; world := w1; trace := trace s ++ [Query siteUrl body] |}).
Proof.
  intros Hc Hq.
  unfold searchAnalytics, bind at 1, getWebmasters, bind at 1, getAuthClient, ret.
  rewrite Hc. unfold withPermissionFallback, query at 1. rewrite Hq. reflexivity.
Qed.

(** X24. For a site identifier already in the "sc-domain:" form the
    fallback cannot change anything: after a permission error the very
    same query, same site identifier and same body, is sent a second
    time, and its outcome is the outcome of the call. *)
Theorem sc_domain_retry_repeats_query siteUrl body (s : State World)
    (client : AuthClient) (err : exn) (w1 : World) :
  startsWith siteUrl "sc-domain:" = true ->
  cachedAuthClient (this s) = Some client ->
  searchanalytics_query client siteUrl body (world s) = (Throw err, w1) ->
  permission_related err = true ->
  searchAnalytics auth_getClient searchanalytics_query URL_hostname siteUrl body s =
  (fst (searchanalytics_query client siteUrl body w1),
   {| this := this s;
      world := snd (searchanalytics_query client siteUrl body w1);
      trace := trace s ++
               [ Query siteUrl body;
                 ConsoleError (fallback_warning "searchAnalytics");
                 Query siteUrl body ] |}).
Proof.
  intros Hsc Hc Hq Hp.
  rewrite (ServiceProperties.searchAnalytics_fallback_request
             auth_getClient searchanalytics_query URL_hostname
             siteUrl body s client err w1 Hc Hq Hp).
  assert (Hn : normalizeUrl URL_hostname siteUrl = siteUrl).
  { unfold normalizeUrl. rewrite Hsc. reflexivity. }
  rewrite Hn. reflexivity.
Qed.

Variable Number_toString : float -> string.

(** X25. The [detect_quick_wins] tool, given arguments within the bounds
    of its schema, a cached client and an upstream that answers, always
    produces a report: it sends exactly one query (dimensions query and
    page, 25000 rows, final data, no filter group) under the given site
    URL, and the report lists one opportunity for every returned row
    that passes the filter, whatever fields the rows lack. *)
Theorem detect_quick_wins_answers (parsed : QuickWinsDetection) (s : State World)
    (client : AuthClient) (response : Response.t) (w1 : World) :
  let th := destructure (quickWinsThresholds (detect_options parsed)) in
  let rows := match Response.rows response with Some rows => rows | None => [] end in
  cachedAuthClient (this s) = Some client ->
  searchanalytics_query client (IndexHandlers.siteUrl parsed)
    (Some (detect_requestBody parsed)) (world s) = (Ok response, w1) ->
  validated th = true ->
  exists report,
    detect_quick_wins auth_getClient searchanalytics_query URL_hostname Number_toString
      parsed s =
    (Ok report,
     {| this := this s; world := w1;
        trace := trace s ++ [Query (IndexHandlers.siteUrl parsed)
                               (Some (detect_requestBody parsed))] |}) /\
    totalOpportunities (summary report) =
      List.length (List.filter (filter_row th) rows) /\
    forall q, In q (quickWins report) <->
      exists row, In row rows /\ filter_row th row = true /\
                  map_row (this s) th row = Ok q.
Proof.
  intros th rows Hc Hq Hv.
  unfold detect_quick_wins, bind, enhancedSearchAnalytics. cbv zeta.
  change (enhancedRequestBody (detect_requestBody parsed) (detect_options parsed))
    with (detect_requestBody parsed).
  unfold bind.
  rewrite (searchAnalytics_success _ _ s client response w1 Hc Hq).
  fold rows.
  change (truthy_bool (enableQuickWins (detect_options parsed))) with true.
  cbn [andb].
  destruct rows as [|r0 rows'] eqn:Hrows.
  - cbn [List.length Nat.ltb Nat.leb]. unfold ret. eexists. split; [reflexivity|].
    cbn. split; [reflexivity|]. intros q. split; [intros []|].
    intros (row & [] & _).
  - change ((0 <? List.length (r0 :: rows'))%nat) with true. cbv iota.
    cbn [this].
    destruct (DetectionProperties.validated_facts th Hv) as (_ & Hpos & _).
    destruct (detectQuickWins (this s) (r0 :: rows')
                (quickWinsThresholds (detect_options parsed))) as [out|e] eqn:E.
    2:{ exfalso.
        destruct (DetectionFacts.detect_Throw_row _ _ _ _ E) as (row & _ & Hf & Hp & _).
        destruct (DetectionProperties.included_has_position th row Hpos Hf) as [p Hp'].
        congruence. }
    unfold ret. eexists. split; [reflexivity|].
    cbn [quick_wins_report quickWins summary totalOpportunities
         EnhancedSearchAnalyticsResponse.quickWins].
    destruct (DetectionFacts.detect_Ok _ _ _ _ E) as (mapped & Hm & Hout).
    pose proof (DetectionFacts.Array_map_Forall2 _ _ _ Hm) as HF.
    pose proof (Array_sort_perm by_additionalClicks mapped) as HP.
    rewrite <- Hout in HP. fold th in HF.
    split.
    + rewrite <- (Permutation_length HP). symmetry. exact (Forall2_length HF).
    + intros q. split.
      * intros Hin. exact (DetectionFacts.detect_origin _ _ _ _ E q Hin).
      * intros (row & Hin & Hf & Hq').
        apply (Permutation_in _ HP).
        assert (Hrow : In row (List.filter (filter_row th) (r0 :: rows')))
          by (apply filter_In; split; assumption).
        destruct (DetectionFacts.Forall2_In_l _ _ _ _ HF Hrow) as (q' & Hq'in & Hmap).
        congruence.
Qed.

End Generic.

Section Lists.

Variable World : Type.
Variables SitesList SitemapsList : Type.
Variable auth_getClient : World -> result AuthClient * World.
Variable sites_list : AuthClient -> World -> result SitesList * World.
Variable sitemaps_list :
  AuthClient -> ListSitemapsRequest -> World -> result SitemapsList * World.
Variable URL_hostname : string -> option string.

(** X26. [listSites] hands on whatever its endpoint gives, errors
    included: no retry and no context prefix, even for a permission
    error.  [listSitemaps], on a permission error, asks once more with
    the site URL normalized and the sitemap index unchanged, and the
    outcome of the second call is the outcome of the method. *)
Theorem list_methods_error_handling
    (client : AuthClient) (request : ListSitemapsRequest) (s : State World) :
  cachedAuthClient (this s) = Some client ->
  listSites auth_getClient sites_list s =
    (fst (sites_list client (world s)),
     {| this := this s; world := snd (sites_list client (world s));
        trace := trace s ++ [Called "sites.list"] |}) /\
  (forall err w1 url,
     list_siteUrl request = Some url ->
     sitemaps_list client request (world s) = (Throw err, w1) ->
     permission_related err = true ->
     let retry := sitemaps_list client
                    {| list_siteUrl := Some (normalizeUrl URL_hostname url);
                       sitemapIndex := sitemapIndex request |} w1 in
     listSitemaps auth_getClient sitemaps_list URL_hostname request s =
     (fst retry,
      {| this := this s; world := snd retry;
         trace := trace s ++ [Called "sitemaps.list";
                              ConsoleError (fallback_warning "listSitemaps");
                              Called "sitemaps.list"] |})).
Proof.
  intros Hc. split.
  - unfold listSites, bind at 1, getWebmasters, bind at 1, getAuthClient, ret.
    rewrite Hc. unfold external.
    destruct (sites_list client (world s)) as [r w]. reflexivity.
  - intros err w1 url Hu He Hp. unfold permission_related in Hp. cbv zeta.
    unfold listSitemaps, bind at 1, getWebmasters, bind at 1, getAuthClient, ret.
    rewrite Hc. unfold withPermissionFallback, external at 1. rewrite He.
    cbv beta iota zeta. rewrite Hp.
    unfold bind, console_error, emit, normalizeUrl_asserted. rewrite Hu.
    unfold external. cbn [world this trace].
    destruct (sitemaps_list client _ w1) as [r w2]. cbn [fst snd].
    rewrite <- !app_assoc. reflexivity.
Qed.

End Lists.

#[local] Existing Instance idle_engine.

Lemma sc_domain_retry_repeats_query_witness :
  let refusing := fun (c : AuthClient) (u : string) (b : SearchAnalyticsQueryRequest)
                      (w : unit) =>
    (@Throw Response.t (Error_ "403 Forbidden"), w) in
  startsWith "sc-domain:example.com" "sc-domain:" = true /\
  permission_related (Error_ "403 Forbidden") = true /\
  trace (snd (searchAnalytics idle_auth refusing no_URL "sc-domain:example.com"
                (Some query_request) (cached_state true))) =
  [ Query "sc-domain:example.com" (Some query_request);
    ConsoleError (fallback_warning "searchAnalytics");
    Query "sc-domain:example.com" (Some query_request) ].
Proof.
  cbv zeta. split; [reflexivity|]. split; [reflexivity|].
  rewrite (sc_domain_retry_repeats_query unit idle_auth _ no_URL
             "sc-domain:example.com" (Some query_request) (cached_state true)
             (auth_client 0) (Error_ "403 Forbidden") tt
             eq_refl eq_refl eq_refl eq_refl).
  reflexivity.
Defined.

Lemma list_methods_error_handling_witness :
  let refusing := fun (c : AuthClient) (w : unit) =>
    (@Throw nat (Error_ "User does not have sufficient permission"), w) in
  cachedAuthClient (this (cached_state true)) = Some (auth_client 0) /\
  listSites idle_auth refusing (cached_state true) =
  (Throw (Error_ "User does not have sufficient permission"),
   {| this := this (cached_state true); world := tt;
      trace := [Called "sites.list"] |}).
Proof.
  cbv zeta. split; [reflexivity|].
  exact (proj1 (list_methods_error_handling unit nat nat idle_auth _
                  (fun _ _ w => (Ok 0%nat, w)) no_URL (auth_client 0)
                  {| list_siteUrl := None; sitemapIndex := None |}
                  (cached_state true) eq_refl)).
Defined.

Lemma detect_quick_wins_answers_witness :
  let rows := [example_row; row_yielding 10 0.5; row_yielding 100 0.002] in
  cachedAuthClient (this (cached_state true)) = Some (auth_client 0) /\
  validated (destructure (quickWinsThresholds (detect_options default_arguments))) = true /\
  exists report,
    fst (detect_quick_wins idle_auth (answering_query rows) no_URL (fun _ => "")
           default_arguments (cached_state true)) = Ok report /\
    totalOpportunities (summary report) = 2%nat.
Proof.
  cbv zeta. split; [reflexivity|]. split; [reflexivity|].
  destruct (detect_quick_wins_answers unit idle_auth
              (answering_query [example_row; row_yielding 10 0.5; row_yielding 100 0.002])
              no_URL (fun _ => "") default_arguments (cached_state true)
              (auth_client 0) _ tt eq_refl eq_refl eq_refl)
    as (report & Hrun & Htotal & _).
  exists report. split.
  - rewrite Hrun. reflexivity.
  - rewrite Htotal. reflexivity.
Defined.

End ToolProperties.
